(** * scripts/run_fcst.py: the forecast run script

    A shallow embedding of [link_files], [_walk_key_path] and [run_fcst],
    and the properties of the run-orchestration sequence that the
    specification states about them.

    Python objects are modelled as follows.
    - A loaded configuration is a tree: string keys mapped to scalars,
      sequences or nested trees ([value], [gmap string value]).
    - [pathlib.Path] values are their [parts] tuple ([list string], the
      anchor "/" being the first part of an absolute path).
    - The file system, the process environment, the log records emitted
      through [logging] and the store of mutable objects make up the
      [world]; Python code is a function from a world to an [outcome] and a
      new world (the monad [M]).
    - Exceptions, [sys.exit] included, are the [Raised] outcome.
    - Where object identity matters (module [Heap]), lists and mappings live
      in the store and are held by reference. *)

From Stdlib Require Import ZArith Ascii.
From stdpp Require Import gmap strings list fin_maps.

#[local] Set Warnings "-register-all".

Open Scope Z_scope.
Open Scope string_scope.
Open Scope list_scope.

(** ** Configuration values *)

Inductive scalar :=
  | SStr (s : string)
  | SInt (z : Z)
  | SBool (b : bool)
  | SNone.

Inductive value :=
  | VScalar (s : scalar)
  | VSeq (items : list value)
  | VDict (entries : gmap string value).

Abbreviation tree := (gmap string value).

(** ** Paths: [pathlib.PurePosixPath] by its parts *)

Abbreviation Path := (list string).

(** ** Exceptions, outcomes, worlds *)

Inductive exception :=
  | KeyError (key : string)
  | TypeError (what : string)
  | NameError (name : string)
  | SystemExit (code : Z)
  | FileExistsError (p : Path)
  | FileNotFoundError (p : Path)
  | NotADirectoryError (p : Path)
  | IsADirectoryError (p : Path).

Inductive outcome (A : Type) :=
  | Returned (a : A)
  | Raised (e : exception).
Arguments Returned {A} a.
Arguments Raised {A} e.

Inductive level := INFO | ERROR.

Inductive node :=
  | NFile (content : string)
  | NDir
  | NLink (target : Path).

(** Mutable objects are held by reference, scalars by value. *)
Abbreviation loc := positive.

Inductive ref :=
  | RScalar (s : scalar)
  | RObject (l : loc).

Inductive object :=
  | OList (items : list ref)
  | ODict (entries : gmap string ref).

Record world := World {
  heap : gmap loc object;
  fs : gmap Path node;
  environ : gmap string string;
  log : list (level * string)
}.

Definition M (A : Type) : Type := world -> outcome A * world.

#[global] Instance M_ret : MRet M := fun A (a : A) (w : world) => (Returned a, w).

Definition raise {A} (e : exception) : M A := fun w => (Raised e, w).

#[global] Instance M_bind : MBind M := fun A B (k : A -> M B) (m : M A) (w : world) =>
  match m w with
  | (Returned a, w') => k a w'
  | (Raised e, w') => (Raised e, w')
  end.

(** An [if] statement without [else]. *)
Definition when (b : bool) (body : M unit) : M unit :=
  if b then body else mret tt.

(** [logging.info] and [logging.error]: the record goes to the end of the log. *)
Definition logged (lv : level) (msg : string) (w : world) : world :=
  {| heap := heap w; fs := fs w; environ := environ w;
     log := log w ++ [(lv, msg)] |}.

Definition emit (lv : level) (msg : string) : M unit :=
  fun w => (Returned tt, logged lv msg w).

Definition logging_info : string -> M unit := emit INFO.
Definition logging_error : string -> M unit := emit ERROR.

(** [sys.exit(code)] *)
Definition sys_exit {A} (code : Z) : M A := raise (SystemExit code).

(** The exit status of the interpreter for the outcome of the main module. *)
Definition exit_status {A} (o : outcome A) : Z :=
  match o with
  | Returned _ => 0
  | Raised (SystemExit code) => code
  | Raised _ => 1
  end.

(** [sep.join(keys)] *)
Definition str_join (sep : string) (keys : list string) : string :=
  String.concat sep keys.

(** [isinstance(v, dict)] *)
Definition isinstance_dict (v : value) : bool :=
  match v with VDict _ => true | _ => false end.

(** ** [_walk_key_path] *)

(** The [for] loop of [_walk_key_path]: [keys], [pathstr] and [config] are the
    local variables it rebinds or extends at each key. *)
Fixpoint walk_loop (keys : list string) (pathstr : string) (config : tree)
    (key_path : list string) : M tree :=
  match key_path with
  | [] => mret config
  | key :: rest =>
      let keys := keys ++ [key] in
      let pathstr := str_join " -> " keys in
      match config !! key with
      | None =>
          logging_error ("Bad config path: " +:+ pathstr);;
          raise (KeyError key)
      | Some subconfig =>
          (* isinstance(subconfig, dict) *)
          match subconfig with
          | VDict d => walk_loop keys pathstr d rest
          | _ =>
              logging_error ("Value at " +:+ pathstr +:+ " must be a dictionary");;
              sys_exit 1
          end
      end
  end.

Definition _walk_key_path (config : tree) (key_path : list string) : M tree :=
  walk_loop [] "<unknown>" config key_path.

(** ** Strings and [pathlib] *)

(** [s.split(sep)] for a separator of one character. *)
Fixpoint split_on (sep : ascii) (s : string) : list string :=
  match s with
  | EmptyString => [""]
  | String c s' =>
      if decide (c = sep) then "" :: split_on sep s'
      else match split_on sep s' with
           | [] => [String c ""]
           | word :: words => String c word :: words
           end
  end.

(** The anchor of a POSIX path: two leading slashes (and no more) are kept,
    any other number of them is the root "/". *)
Definition anchor_of (s : string) : Path :=
  match s with
  | String "/" (String "/" (String "/" _)) => ["/"]
  | String "/" (String "/" _) => ["//"]
  | String "/" _ => ["/"]
  | _ => []
  end.

Definition is_anchor (part : string) : bool :=
  bool_decide (part = "/" ∨ part = "//").

Definition is_component (part : string) : bool :=
  bool_decide (part ≠ "" ∧ part ≠ ".").

(** [Path(s)]: the parts of [s]; empty components and "." are dropped. *)
Definition Path_of_string (s : string) : Path :=
  anchor_of s ++ filter (λ part, is_component part = true) (split_on "/" s).

Definition is_absolute (p : Path) : bool :=
  match p with
  | first :: _ => is_anchor first
  | [] => false
  end.

(** [p.name] *)
Definition Path_name (p : Path) : string :=
  match p with
  | [] => ""
  | first :: rest =>
      match last rest with
      | Some part => part
      | None => if is_anchor first then "" else first
      end
  end.

(** [p.parent] *)
Definition Path_parent (p : Path) : Path :=
  if is_absolute p && bool_decide (length p = 1%nat) then p else removelast p.

(** [p / q] for two paths *)
Definition Path_join (p q : Path) : Path :=
  if is_absolute q then q else p ++ q.

(** [p / s] for a path and a string *)
Definition Path_div (p : Path) (s : string) : Path :=
  Path_join p (Path_of_string s).

(** [str(p)] *)
Definition Path_str (p : Path) : string :=
  match p with
  | [] => "."
  | first :: rest =>
      if is_anchor first then first +:+ str_join "/" rest else str_join "/" p
  end.

(** ** The file system, as [pathlib] and [os] see it

    One entry per path; a path names the entry stored under its own parts
    (no ".." resolution, no symbolic link in the middle of a path). The last
    part is followed through symbolic links where the system call does so. *)

(** Follow the symbolic links at [p], at most [fuel] of them. *)
Fixpoint follow (fuel : nat) (f : gmap Path node) (p : Path) : option Path :=
  match f !! p with
  | Some (NLink target) =>
      match fuel with
      | O => None
      | S fuel' => follow fuel' f (Path_join (Path_parent p) target)
      end
  | _ => Some p
  end.

(** [os.stat]: [None] when there is no such entry (or too many links). *)
Definition stat (f : gmap Path node) (p : Path) : option node :=
  q ← follow 40 f p; f !! q.

Definition with_fs (f : gmap Path node) (w : world) : world :=
  {| heap := heap w; fs := f; environ := environ w; log := log w |}.

(** [p.is_symlink()] *)
Definition Path_is_symlink (p : Path) : M bool :=
  fun w => (Returned (match fs w !! p with Some (NLink _) => true | _ => false end), w).

(** [p.is_file()] *)
Definition Path_is_file (p : Path) : M bool :=
  fun w => (Returned (match stat (fs w) p with Some (NFile _) => true | _ => false end), w).

(** [p.unlink()] *)
Definition Path_unlink (p : Path) : M unit :=
  fun w =>
    match fs w !! p with
    | None => (Raised (FileNotFoundError p), w)
    | Some NDir => (Raised (IsADirectoryError p), w)
    | Some _ => (Returned tt, with_fs (delete p (fs w)) w)
    end.

(** Create the entry [n] at [p], which must be free, in an existing directory. *)
Definition create (p : Path) (n : node) : M unit :=
  fun w =>
    match fs w !! p with
    | Some _ => (Raised (FileExistsError p), w)
    | None =>
        match stat (fs w) (Path_parent p) with
        | Some NDir => (Returned tt, with_fs (<[p := n]> (fs w)) w)
        | Some _ => (Raised (NotADirectoryError p), w)
        | None => (Raised (FileNotFoundError p), w)
        end
    end.

(** [p.symlink_to(target)] *)
Definition Path_symlink_to (p target : Path) : M unit :=
  create p (NLink target).

(** [p.touch()]: an existing entry is left as it is (only its times change). *)
Definition Path_touch (p : Path) : M unit :=
  fun w =>
    match follow 40 (fs w) p with
    | None => (Raised (FileNotFoundError p), w)
    | Some q =>
        match fs w !! q with
        | Some _ => (Returned tt, w)
        | None => create q (NFile "") w
        end
    end.

(** [fnmatch] for patterns made of literal characters, [*] and [?]. *)
Fixpoint fnmatch (pat : string) : string -> bool :=
  match pat with
  | EmptyString => fun name => bool_decide (name = "")
  | String "*" pat' =>
      fix star (name : string) : bool :=
        fnmatch pat' name
        || match name with
           | EmptyString => false
           | String _ name' => star name'
           end
  | String "?" pat' =>
      fun name => match name with
                  | EmptyString => false
                  | String _ name' => fnmatch pat' name'
                  end
  | String c pat' =>
      fun name => match name with
                  | EmptyString => false
                  | String c' name' => bool_decide (c = c') && fnmatch pat' name'
                  end
  end.

Definition is_hidden (name : string) : bool :=
  match name with String "." _ => true | _ => false end.

(** [glob.glob(pathname)] for a pattern in the last part of [pathname] only:
    the entries of the directory that match; hidden entries are left out
    unless the pattern itself starts with a dot. *)
Definition glob_glob (pathname : string) : M (list string) :=
  fun w =>
    let pat := Path_of_string pathname in
    let dirname := Path_parent pat in
    let matches (entry : Path * node) :=
      bool_decide (Path_parent entry.1 = dirname ∧ entry.1 ≠ dirname)
      && fnmatch (Path_name pat) (Path_name entry.1)
      && (negb (is_hidden (Path_name entry.1)) || is_hidden (Path_name pat)) in
    (Returned ((λ entry, Path_str entry.1)
               <$> filter (λ entry, matches entry = true) (map_to_list (fs w))), w).

(** ** [link_files] *)

(** [Path(fpath).name], the base name of a source file. *)
Definition basename (fpath : string) : string :=
  Path_name (Path_of_string fpath).

(** [dest_dir / Path(fpath).name] *)
Definition link_name (dest_dir : Path) (fpath : string) : Path :=
  Path_div dest_dir (basename fpath).

(** No character of [s] is [c]. *)
Fixpoint lacks (c : ascii) (s : string) : bool :=
  match s with
  | EmptyString => true
  | String c' s' => negb (bool_decide (c' = c)) && lacks c s'
  end.

(** The body of the [for] loop. *)
Definition link_file (dest_dir : Path) (fpath : string) : M unit :=
  let path := Path_of_string fpath in
  let linkname := Path_div dest_dir (Path_name path) in
  is_link ← Path_is_symlink linkname;
  when is_link (Path_unlink linkname);;
  logging_info ("Linking " +:+ Path_str linkname +:+ " -> " +:+ Path_str path);;
  Path_symlink_to linkname path.

Fixpoint link_files (dest_dir : Path) (files : list string) : M unit :=
  match files with
  | [] => mret tt
  | fpath :: rest => link_file dest_dir fpath;; link_files dest_dir rest
  end.

(** ** Indexing and conversions used by [run_fcst] *)

(** [v[key]] for a string key: only a mapping can be indexed by one. *)
Definition getitem (v : value) (key : string) : M value :=
  match v with
  | VDict d =>
      match d !! key with
      | Some item => mret item
      | None => raise (KeyError key)
      end
  | VSeq _ => raise (TypeError "list indices must be integers or slices, not str")
  | VScalar (SStr _) => raise (TypeError "string indices must be integers, not 'str'")
  | VScalar _ => raise (TypeError "object is not subscriptable")
  end.

(** [Path(v)]: a string is parsed, anything else is refused. *)
Definition Path_new (v : value) : M Path :=
  match v with
  | VScalar (SStr s) => mret (Path_of_string s)
  | _ => raise (TypeError "expected str, bytes or os.PathLike object")
  end.

(** [os.environ[name] = val] *)
Definition os_environ_set (name val : string) : M unit :=
  fun w => (Returned tt,
            {| heap := heap w; fs := fs w; environ := <[name := val]> (environ w);
               log := log w |}).

(** ** Name resolution

    A name that is not a local variable of the function is looked up among
    the names bound at module level; [NameError] when it is not there. The
    bindings are kept by the type of what they are bound to. *)

Definition load_global {A} (bindings : list (string * A)) (name : string) : M A :=
  match (list_to_map bindings : gmap string A) !! name with
  | Some obj => mret obj
  | None => raise (NameError name)
  end.

Record namespace := Namespace {
  (* callables taking [dest_dir] and [files] *)
  ns_linkers : list (string * (Path -> list string -> M unit));
  (* modules with a [glob] function *)
  ns_glob_modules : list (string * (string -> M (list string)));
  (* names bound to a path *)
  ns_paths : list (string * Path)
}.

(** What the module binds by its [import] and [def] statements: of the three
    kinds above, only [link_files]. The other module-level names are [dt],
    [logging], [os], [re], [sys], [ArgumentParser], [deepcopy], [Path],
    [uwlink], [use_uwtools_logger], [FV3], [get_yaml_config],
    [_walk_key_path], [parse_args] and [run_fcst]. *)
Definition module_namespace : namespace :=
  {| ns_linkers := [("link_files", link_files)];
     ns_glob_modules := [];
     ns_paths := [] |}.

(** ** [run_fcst] *)

(** [expt_config["workflow"]["FIXlam"]] turned into a path (line 114). *)
Definition fix_lam_path_of (expt_config : tree) : M Path :=
  workflow ← getitem (VDict expt_config) "workflow";
  fixlam ← getitem workflow "FIXlam";
  Path_new fixlam.

Section RunFcst.

(** The external collaborators: the configuration loader and the driver. *)
Variable datetime : Type.

Record driver := Driver {
  driver_config : tree;
  driver_run : M unit
}.

Variable get_yaml_config : Path -> M tree.
Variable FV3 : Path -> datetime -> list string -> M driver.

Definition run_fcst_in (globals : namespace)
    (config_file : Path) (cycle : datetime) (key_path : list string)
    (member : string) : M unit :=
  expt_config ← get_yaml_config config_file;
  os_environ_set "MEMBER" member;;
  fv3_driver ← FV3 config_file cycle key_path;
  rundir_value ← getitem (VDict (driver_config fv3_driver)) "rundir";
  rundir ← Path_new rundir_value;
  logging_info ("Will run FV3 in " +:+ Path_str rundir);;
  driver_run fv3_driver;;
  done_file ← Path_is_file (Path_div rundir "runscript.fv3.done");
  when (negb done_file)
    (logging_error "Error occurred running FV3. Please see component error logs.";;
     sys_exit 1);;
  fix_lam_path ← fix_lam_path_of expt_config;
  _link_files ← load_global (ns_linkers globals) "_link_files";
  glob ← load_global (ns_glob_modules globals) "glob";
  files ← glob (Path_str (Path_div rundir "*.nc"));
  _link_files fix_lam_path files;;
  task_rundir ← load_global (ns_paths globals) "task_rundir";
  Path_touch (Path_div task_rundir "run_fcst_task_complete.txt").

Definition run_fcst : Path -> datetime -> list string -> string -> M unit :=
  run_fcst_in module_namespace.

(** The main block: [run_fv3] is looked up among the module's functions of
    that signature, which are [run_fcst] alone. *)
Record args := Args {
  args_config_file : Path;
  args_cycle : datetime;
  args_key_path : list string;
  args_member : string
}.

Variable use_uwtools_logger : M unit.
Variable parse_args : list string -> M args.

Definition main (argv : list string) : M unit :=
  use_uwtools_logger;;
  a ← parse_args argv;
  run_fv3 ← load_global [("run_fcst", run_fcst)] "run_fv3";
  run_fv3 (args_config_file a) (args_cycle a) (args_key_path a) (args_member a).

End RunFcst.

(** The [type=] of the [--key-path] argument: [lambda s: s.split(".")]. *)
Definition key_path_type (s : string) : list string := split_on "." s.

(** ** The sub-tree at a path *)

(** The value found by descending from [v] along [path], through mappings
    only. *)
Fixpoint value_at (v : value) (path : list string) : option value :=
  match path with
  | [] => Some v
  | key :: rest =>
      match v with
      | VDict d => item ← d !! key; value_at item rest
      | _ => None
      end
  end.

(** ** [_walk_key_path] on the store

    The same function with the configuration held by reference, as Python
    holds it: [keys] is a list object allocated by the call, the mappings of
    the configuration are objects that were there before it. *)

Module Heap.

Definition with_heap (h : gmap loc object) (w : world) : world :=
  {| heap := h; fs := fs w; environ := environ w; log := log w |}.

(** A new object, at a location not in use. *)
Definition alloc (o : object) : M loc :=
  fun w =>
    let l := fresh (dom (heap w)) in
    (Returned l, with_heap (<[l := o]> (heap w)) w).

(** [lst.append(x)] *)
Definition list_append (lst : loc) (x : ref) : M unit :=
  fun w =>
    match heap w !! lst with
    | Some (OList items) =>
        (Returned tt, with_heap (<[lst := OList (items ++ [x])]> (heap w)) w)
    | _ => (Raised (TypeError "object has no attribute 'append'"), w)
    end.

Fixpoint strings_of (items : list ref) : option (list string) :=
  match items with
  | [] => Some []
  | RScalar (SStr s) :: rest => cons s <$> strings_of rest
  | _ => None
  end.

(** [sep.join(lst)] *)
Definition str_join (sep : string) (lst : loc) : M string :=
  fun w =>
    match heap w !! lst with
    | Some (OList items) =>
        match strings_of items with
        | Some strs => (Returned (String.concat sep strs), w)
        | None => (Raised (TypeError "sequence item: expected str instance"), w)
        end
    | _ => (Raised (TypeError "can only join an iterable"), w)
    end.

(** [config[key]] *)
Definition getitem (config : ref) (key : string) : M ref :=
  fun w =>
    match config with
    | RObject l =>
        match heap w !! l with
        | Some (ODict d) =>
            match d !! key with
            | Some item => (Returned item, w)
            | None => (Raised (KeyError key), w)
            end
        | _ => (Raised (TypeError "list indices must be integers or slices, not str"), w)
        end
    | RScalar _ => (Raised (TypeError "object is not subscriptable"), w)
    end.

(** [isinstance(r, dict)] *)
Definition isinstance_dict (r : ref) : M bool :=
  fun w =>
    (Returned (match r with
               | RObject l => match heap w !! l with Some (ODict _) => true | _ => false end
               | RScalar _ => false
               end), w).

(** [try: body / except KeyError: handler] *)
Definition except_KeyError {A} (body : M A) (handler : exception -> M A) : M A :=
  fun w =>
    match body w with
    | (Raised (KeyError key), w') => handler (KeyError key) w'
    | result => result
    end.

Fixpoint walk_loop (keys : loc) (pathstr : string) (config : ref)
    (key_path : list string) : M ref :=
  match key_path with
  | [] => mret config
  | key :: rest =>
      list_append keys (RScalar (SStr key));;
      pathstr ← str_join " -> " keys;
      subconfig ← except_KeyError (getitem config key)
                    (λ e, logging_error ("Bad config path: " +:+ pathstr);; raise e);
      is_dict ← isinstance_dict subconfig;
      if negb is_dict
      then logging_error ("Value at " +:+ pathstr +:+ " must be a dictionary");;
           sys_exit 1
      else walk_loop keys pathstr subconfig rest
  end.

Definition _walk_key_path (config : ref) (key_path : list string) : M ref :=
  keys ← alloc (OList []);
  walk_loop keys "<unknown>" config key_path.

(** The store [h] holds the value [v] behind [r]. *)
Inductive represents (h : gmap loc object) : ref -> value -> Prop :=
  | represents_scalar s : represents h (RScalar s) (VScalar s)
  | represents_list l items vs :
      h !! l = Some (OList items) ->
      Forall2 (represents h) items vs ->
      represents h (RObject l) (VSeq vs)
  | represents_dict l entries d :
      h !! l = Some (ODict entries) ->
      (forall key, option_Forall2 (represents h) (entries !! key) (d !! key)) ->
      represents h (RObject l) (VDict d).

End Heap.

(** ** What publishing leaves behind *)

Definition is_link (n : node) : bool :=
  match n with NLink _ => true | _ => false end.

(** The file system after one link per source file has been written, in the
    order of the files. *)
Fixpoint published (dest_dir : Path) (files : list string) (f : gmap Path node)
    : gmap Path node :=
  match files with
  | [] => f
  | fpath :: rest =>
      published dest_dir rest
        (<[link_name dest_dir fpath := NLink (Path_of_string fpath)]> f)
  end.

(** Nothing but a symbolic link stands where a link is to be written. *)
Definition clear_for (dest_dir : Path) (files : list string) (f : gmap Path node) : Prop :=
  forall fpath, fpath ∈ files ->
    f !! link_name dest_dir fpath = None
    \/ exists target, f !! link_name dest_dir fpath = Some (NLink target).

(** ** The scenarios of the specification *)

(** Scenario A: the configuration [{"workflow": {"FIXlam": "/out"}}]. *)
Definition config_A : tree :=
  {[ "workflow" := VDict {[ "FIXlam" := VScalar (SStr "/out") ]} ]}.

Definition empty_world : world := World ∅ ∅ ∅ [].

(** Scenario C: a run directory with one output file, a destination
    directory, and no completion marker of the driver. *)
Definition fs_C : gmap Path node :=
  <[ ["/"; "run"; "data.nc"] := NFile "netcdf" ]>
  (<[ ["/"; "run"] := NDir ]> (<[ ["/"; "out"] := NDir ]> (<[ ["/"] := NDir ]> ∅))).

(** Scenario B: the same with the driver's completion marker. *)
Definition fs_B : gmap Path node :=
  <[ ["/"; "run"; "runscript.fv3.done"] := NFile "" ]> fs_C.

Definition world_B : world := World ∅ fs_B ∅ [].
Definition world_C : world := World ∅ fs_C ∅ [].

(** The driver of the scenarios: its run directory is "/run", and running it
    leaves the file system as it finds it. *)
Definition driver_B : driver :=
  Driver {[ "rundir" := VScalar (SStr "/run") ]} (mret tt).

(** [run_fcst] in the scenarios: the loader yields [config_A], the driver is
    [driver_B], the names are resolved in [globals]. *)
Definition run_scenario (globals : namespace) : M unit :=
  run_fcst_in unit (λ _, mret config_A) (λ _ _ _, mret driver_B) globals
    ["/"; "expt"; "config.yaml"] tt ["task_run_fcst"] "000".

(** The names the body of [run_fcst] looks up and the module does not bind,
    bound to what their use suggests. *)
Definition names_as_used : namespace :=
  {| ns_linkers := [("_link_files", link_files)];
     ns_glob_modules := [("glob", glob_glob)];
     ns_paths := [("task_rundir", ["/"; "run"])] |}.

(** Two computations fail or succeed together, with the same exception if
    they fail, and leave the same world. *)
Definition same_behaviour {A B} (r1 : outcome A * world) (r2 : outcome B * world) : Prop :=
  match r1.1, r2.1 with
  | Returned _, Returned _ => r1.2 = r2.2
  | Raised e1, Raised e2 => e1 = e2 /\ r1.2 = r2.2
  | _, _ => False
  end.

(** Scenario A on the store: the outer mapping at location 1, the inner one
    at location 2. *)
Definition heap_A : gmap loc object :=
  <[ 1%positive := ODict {[ "workflow" := RObject 2%positive ]} ]>
  (<[ 2%positive := ODict {[ "FIXlam" := RScalar (SStr "/out") ]} ]> ∅).

Definition world_A : world := World heap_A ∅ ∅ [].

(** [w'] differs from [w] at most in the object at [keys] and in the log. *)
Definition only_at (keys : loc) (w w' : world) : Prop :=
  (forall l, l ≠ keys -> heap w' !! l = heap w !! l)
  /\ fs w' = fs w /\ environ w' = environ w.

(** The list object that holds the strings [keys]. *)
Definition list_of_strings (keys : list string) : object :=
  OList ((λ key, RScalar (SStr key)) <$> keys).

(** The walk on the store and the walk on trees end alike. *)
Definition same_walk (h : gmap loc object) (r : outcome ref * world)
    (r' : outcome tree * world) : Prop :=
  match r.1, r'.1 with
  | Returned found, Returned t => Heap.represents h found (VDict t)
  | Raised e, Raised e' => e = e'
  | _, _ => False
  end
  /\ log r.2 = log r'.2.

(** A destination in which a regular file already has the name of the link. *)
Definition fs_taken : gmap Path node :=
  <[ ["/"; "out"; "data.nc"] := NFile "kept" ]> fs_B.

Definition world_taken : world := World ∅ fs_taken ∅ [].

(** ** Records and outcomes used to state further properties *)

(** The record [link_files] logs for one source file. *)
Definition linking_record (dest_dir : Path) (fpath : string) : level * string :=
  (INFO, "Linking " +:+ Path_str (link_name dest_dir fpath) +:+ " -> "
         +:+ Path_str (Path_of_string fpath)).

(** The record of a failed walk, for the trail of [keys]. *)
Definition bad_path_record (keys : list string) : string :=
  "Bad config path: " +:+ str_join " -> " keys.

Definition not_a_dict_record (keys : list string) : string :=
  "Value at " +:+ str_join " -> " keys +:+ " must be a dictionary".

(** What stands at [p] once the links of [files] have been written over an
    entry [before]: the link of the last file whose link name is [p], if any. *)
Fixpoint link_target (dest_dir : Path) (files : list string) (p : Path)
    (before : option node) : option node :=
  match files with
  | [] => before
  | fpath :: rest =>
      link_target dest_dir rest p
        (if decide (link_name dest_dir fpath = p)
         then Some (NLink (Path_of_string fpath)) else before)
  end.

(** A computation leaves the part [part] of the world as it finds it,
    whether it returns or raises. *)
Definition keeps {X A} (part : world -> X) (m : M A) : Prop :=
  forall w, part (m w).2 = part w.

(** The entry of the file system at [p]. *)
Definition entry_at (p : Path) (w : world) : option node := fs w !! p.

(** The value of [MEMBER] in the environment. *)
Definition member_of (w : world) : option string := environ w !! "MEMBER".

(** * Properties of [_walk_key_path] *)

Lemma bind_returned {A B} (m : M A) (k : A -> M B) w a w' :
  m w = (Returned a, w') -> (m ≫= k) w = k a w'.
Proof. intros Hm. unfold mbind, M_bind. by rewrite Hm. Qed.

Lemma bind_raised {A B} (m : M A) (k : A -> M B) w e w' :
  m w = (Raised e, w') -> (m ≫= k) w = (Raised e, w').
Proof. intros Hm. unfold mbind, M_bind. by rewrite Hm. Qed.

(** The [pathstr] a loop iteration starts with is never read. *)
Lemma walk_loop_pathstr keys ps ps' config key_path :
  walk_loop keys ps config key_path = walk_loop keys ps' config key_path.
Proof. by destruct key_path. Qed.

(** A value with something below it is a mapping. *)
Lemma value_at_cons_dict v key rest u :
  value_at v (key :: rest) = Some u ->
  exists d item, v = VDict d /\ d !! key = Some item /\ value_at item rest = Some u.
Proof.
  destruct v as [s|items|d]; simpl; try discriminate.
  destruct (d !! key) as [item|] eqn:Hkey; simpl; [|discriminate].
  intros Hrest. by exists d, item.
Qed.

(** Walking down to a mapping is the same as starting from it, with the keys
    consumed so far recorded. *)
Lemma walk_loop_descend pre : forall keys ps config t post w,
  value_at (VDict config) pre = Some (VDict t) ->
  walk_loop keys ps config (pre ++ post) w = walk_loop (keys ++ pre) ps t post w.
Proof.
  induction pre as [|key pre IH]; intros keys ps config t post w Hat.
  - simpl in Hat. injection Hat as ->. by rewrite app_nil_r.
  - apply value_at_cons_dict in Hat as (d & item & Hd & Hkey & Hrest).
    injection Hd as <-. simpl. rewrite Hkey.
    destruct item as [s|items|d];
      [by destruct pre | by destruct pre |].
    rewrite (IH _ _ _ t post w Hrest), <- app_assoc. simpl.
    by rewrite (walk_loop_pathstr _ _ ps).
Qed.

Lemma walk_loop_returns path keys ps config t w :
  value_at (VDict config) path = Some (VDict t) ->
  walk_loop keys ps config path w = (Returned t, w).
Proof.
  intros Hat. rewrite <- (app_nil_r path).
  by rewrite (walk_loop_descend path keys ps config t [] w Hat).
Qed.

(** C1. For a non-empty key path each of whose prefixes resolves to a nested
    tree, [_walk_key_path] returns the sub-tree at the end of the path: it
    raises nothing and leaves the world, the log included, as it was. *)
Theorem walk_returns_subtree (config : tree) (key_path : list string) (w : world) :
  key_path ≠ [] ->
  (forall n, (0 < n <= length key_path)%nat ->
     exists t, value_at (VDict config) (take n key_path) = Some (VDict t)) ->
  exists t, value_at (VDict config) key_path = Some (VDict t)
            /\ _walk_key_path config key_path w = (Returned t, w).
Proof.
  intros Hne Hprefix.
  destruct (Hprefix (length key_path)) as [t Ht].
  { destruct key_path; [done | simpl; lia]. }
  rewrite firstn_all in Ht. exists t. split; [done|].
  by apply walk_loop_returns.
Qed.

Lemma walk_returns_subtree_witness :
  exists t, value_at (VDict config_A) ["workflow"] = Some (VDict t)
            /\ _walk_key_path config_A ["workflow"] empty_world = (Returned t, empty_world).
Proof.
  apply (walk_returns_subtree config_A ["workflow"] empty_world); [discriminate|].
  intros n Hn. simpl in Hn.
  assert (n = 1%nat) as -> by lia.
  eexists. vm_compute. reflexivity.
Defined.

(** C2. When a key is absent at its position, every earlier key having led to
    a nested tree, [_walk_key_path] logs the trail of the keys up to and
    including the absent one, joined by " -> ", and raises [KeyError];
    scenario D reports the trail "workflow -> missing". *)
Theorem walk_missing_key_trail :
  (forall (config t : tree) (pre post : list string) (key : string) (w : world),
     value_at (VDict config) pre = Some (VDict t) ->
     t !! key = None ->
     _walk_key_path config (pre ++ key :: post) w
     = (Raised (KeyError key),
        logged ERROR ("Bad config path: " +:+ str_join " -> " (pre ++ [key])) w))
  /\ _walk_key_path config_A ["workflow"; "missing"] empty_world
     = (Raised (KeyError "missing"),
        logged ERROR "Bad config path: workflow -> missing" empty_world).
Proof.
  split; [|by vm_compute].
  intros config t pre post key w Hat Hkey. unfold _walk_key_path.
  rewrite (walk_loop_descend pre [] _ config t (key :: post) w Hat).
  simpl. by rewrite Hkey.
Qed.

Lemma walk_missing_key_trail_witness :
  _walk_key_path config_A (["workflow"] ++ "missing" :: ["below"]) empty_world
  = (Raised (KeyError "missing"),
     logged ERROR ("Bad config path: " +:+ str_join " -> " (["workflow"] ++ ["missing"]))
       empty_world).
Proof.
  apply (proj1 walk_missing_key_trail config_A
           {[ "FIXlam" := VScalar (SStr "/out") ]} ["workflow"] ["below"] "missing");
    by vm_compute.
Defined.

(** C3 as stated fails: the empty key path is not rejected. *)
Lemma walk_empty_path_not_rejected :
  _walk_key_path config_A [] empty_world = (Returned config_A, empty_world)
  /\ ~ (exists e w', _walk_key_path config_A [] empty_world = (Raised e, w')).
Proof.
  split; [done|]. intros (e & w' & Hraised). discriminate Hraised.
Qed.

(** C3, amended. With a key path of length zero the loop body never runs:
    [_walk_key_path] returns the tree it was given, raises nothing and logs
    nothing. *)
Theorem walk_empty_path_returns_config (config : tree) (w : world) :
  _walk_key_path config [] w = (Returned config, w).
Proof. reflexivity. Qed.

(** The key path of the command line always has a key: [split] never returns
    an empty list. *)
Lemma split_on_nonempty sep s : split_on sep s ≠ [].
Proof.
  destruct s as [|c s]; simpl; [done|].
  destruct (decide (c = sep)); [done|]. by destruct (split_on sep s).
Qed.

Lemma key_path_type_nonempty s : key_path_type s ≠ [].
Proof. apply split_on_nonempty. Qed.

(** C4. When a key leads to a value that is there but is not a mapping, every
    earlier key having led to a nested tree, [_walk_key_path] logs that the
    value at the trail of the keys up to and including that key must be a
    dictionary, and exits with status 1. *)
Theorem walk_not_a_tree_trail (config t : tree) (pre post : list string)
    (key : string) (v : value) (w : world) :
  value_at (VDict config) pre = Some (VDict t) ->
  t !! key = Some v ->
  isinstance_dict v = false ->
  _walk_key_path config (pre ++ key :: post) w
  = (Raised (SystemExit 1),
     logged ERROR ("Value at " +:+ str_join " -> " (pre ++ [key]) +:+ " must be a dictionary") w).
Proof.
  intros Hat Hkey Hscalar. unfold _walk_key_path.
  rewrite (walk_loop_descend pre [] _ config t (key :: post) w Hat).
  simpl. rewrite Hkey. by destruct v.
Qed.

Lemma walk_not_a_tree_trail_witness :
  _walk_key_path config_A (["workflow"] ++ "FIXlam" :: []) empty_world
  = (Raised (SystemExit 1),
     logged ERROR "Value at workflow -> FIXlam must be a dictionary" empty_world).
Proof.
  apply (walk_not_a_tree_trail config_A {[ "FIXlam" := VScalar (SStr "/out") ]}
           ["workflow"] [] "FIXlam" (VScalar (SStr "/out")) empty_world);
    by vm_compute.
Defined.

(** * Properties of paths *)

Lemma split_on_lacks sep s part : part ∈ split_on sep s -> lacks sep part = true.
Proof.
  revert part. induction s as [|c s IH]; intros part; simpl.
  - intros ->%list_elem_of_singleton. done.
  - destruct (decide (c = sep)) as [->|Hne].
    + intros [->|Hin]%elem_of_cons; [done | by apply IH].
    + destruct (split_on sep s) as [|word words] eqn:Hsplit.
      * intros ->%list_elem_of_singleton. simpl.
        by rewrite bool_decide_eq_false_2.
      * intros [->|Hin]%elem_of_cons.
        -- simpl. rewrite bool_decide_eq_false_2 by done. simpl.
           apply IH. left.
        -- apply IH. by right.
Qed.

Lemma split_on_whole sep s : lacks sep s = true -> split_on sep s = [s].
Proof.
  induction s as [|c s IH]; simpl; [done|].
  intros [Hc Hs]%andb_prop. apply negb_true_iff, bool_decide_eq_false in Hc.
  destruct (decide (c = sep)); [done|]. by rewrite IH.
Qed.

(** A string without a slash that is neither empty nor "." is one part. *)
Lemma Path_of_string_part part :
  lacks "/" part = true -> is_component part = true -> Path_of_string part = [part].
Proof.
  intros Hlacks Hcomp. unfold Path_of_string.
  rewrite (split_on_whole _ _ Hlacks).
  assert (anchor_of part = []) as ->.
  { destruct part as [|c part]; [done|]. simpl in Hlacks.
    apply andb_prop in Hlacks as [Hc _].
    apply negb_true_iff, bool_decide_eq_false in Hc.
    unfold anchor_of. repeat case_match; simplify_eq; done. }
  simpl. rewrite filter_cons_True by done. done.
Qed.

(** The base name of a source file is empty or a single part. *)
Lemma basename_part fpath :
  basename fpath = ""
  \/ (lacks "/" (basename fpath) = true /\ is_component (basename fpath) = true).
Proof.
  unfold basename, Path_of_string.
  set (parts := filter (λ part, is_component part = true) (split_on "/" fpath)).
  assert (Hparts : forall part, part ∈ parts ->
            lacks "/" part = true /\ is_component part = true).
  { intros part [Hcomp Hin]%list_elem_of_filter. split; [|done].
    by apply (split_on_lacks _ fpath). }
  assert (Hanchor : anchor_of fpath = [] \/ anchor_of fpath = ["/"]
                    \/ anchor_of fpath = ["//"]).
  { unfold anchor_of. repeat case_match; auto. }
  destruct Hanchor as [-> | [-> | ->]]; simpl.
  - destruct parts as [|first rest] eqn:Hlist; [by left|]. simpl.
    destruct (last rest) as [part|] eqn:Hlast.
    + right. apply Hparts. right. by apply last_Some_elem_of.
    + destruct (Hparts first) as [Hl Hc]; [left|].
      assert (is_anchor first = false) as ->; [|by right].
      apply bool_decide_eq_false. intros [-> | ->]; done.
  - destruct (last parts) as [part|] eqn:Hlast; [|by left].
    right. apply Hparts. by apply last_Some_elem_of.
  - destruct (last parts) as [part|] eqn:Hlast; [|by left].
    right. apply Hparts. by apply last_Some_elem_of.
Qed.

Lemma part_not_anchor part : lacks "/" part = true -> is_anchor part = false.
Proof.
  intros Hlacks. apply bool_decide_eq_false. intros [-> | ->]; done.
Qed.

(** The link for a source file is an entry of the destination directory,
    unless the file has no base name. *)
Lemma link_name_spec dest_dir fpath :
  link_name dest_dir fpath
  = if decide (basename fpath = "") then dest_dir else dest_dir ++ [basename fpath].
Proof.
  unfold link_name, Path_div, Path_join.
  destruct (basename_part fpath) as [-> | [Hlacks Hcomp]].
  - simpl. by rewrite app_nil_r.
  - rewrite (Path_of_string_part _ Hlacks Hcomp). simpl.
    rewrite (part_not_anchor _ Hlacks).
    apply bool_decide_eq_true in Hcomp as [Hne _].
    by destruct (decide (basename fpath = "")).
Qed.

Lemma link_name_inj dest_dir f g :
  link_name dest_dir f = link_name dest_dir g -> basename f = basename g.
Proof.
  rewrite !link_name_spec.
  destruct (decide (basename f = "")) as [Hf|Hf],
           (decide (basename g = "")) as [Hg|Hg]; intros Heq.
  - congruence.
  - apply (f_equal length) in Heq. rewrite length_app in Heq. simpl in Heq. lia.
  - apply (f_equal length) in Heq. rewrite length_app in Heq. simpl in Heq. lia.
  - apply app_inv_head in Heq. congruence.
Qed.

Lemma link_name_parent dest_dir fpath :
  link_name dest_dir fpath ≠ dest_dir ->
  Path_parent (link_name dest_dir fpath) = dest_dir.
Proof.
  rewrite link_name_spec.
  destruct (decide (basename fpath = "")) as [|Hne]; [done|]. intros _.
  destruct (basename_part fpath) as [|[Hlacks _]]; [done|].
  unfold Path_parent.
  assert (is_absolute (dest_dir ++ [basename fpath])
          && bool_decide (length (dest_dir ++ [basename fpath]) = 1%nat) = false) as ->.
  { destruct dest_dir as [|first rest]; simpl.
    - by rewrite (part_not_anchor _ Hlacks).
    - rewrite bool_decide_eq_false_2, andb_false_r; [done|].
      rewrite length_app. simpl. lia. }
  apply removelast_last.
Qed.

(** * Properties of [link_files] *)

Lemma follow_here (fuel : nat) (f : gmap Path node) (p : Path) :
  (forall target, f !! p ≠ Some (NLink target)) -> follow fuel f p = Some p.
Proof.
  intros Hreal. destruct fuel; simpl; destruct (f !! p) as [[| |target]|] eqn:Hp;
    try done; by destruct (Hreal target).
Qed.

Lemma stat_dir (f : gmap Path node) (p : Path) : f !! p = Some NDir -> stat f p = Some NDir.
Proof.
  intros Hp. unfold stat. rewrite follow_here; simpl; [done|].
  intros target. by rewrite Hp.
Qed.

Lemma link_file_unfold dest_dir fpath :
  link_file dest_dir fpath
  = (is_link ← Path_is_symlink (link_name dest_dir fpath);
     when is_link (Path_unlink (link_name dest_dir fpath));;
     logging_info ("Linking " +:+ Path_str (link_name dest_dir fpath) +:+ " -> "
                   +:+ Path_str (Path_of_string fpath));;
     Path_symlink_to (link_name dest_dir fpath) (Path_of_string fpath)).
Proof. reflexivity. Qed.

Ltac run_link_file :=
  rewrite link_file_unfold;
  unfold Path_is_symlink, Path_unlink, Path_symlink_to, create, when,
    logging_info, emit, mbind, M_bind, mret, M_ret; simpl.

(** One source file, nothing but a link in the way: its link is written. *)
Lemma link_file_ok dest_dir fpath w :
  fs w !! dest_dir = Some NDir ->
  (fs w !! link_name dest_dir fpath = None
   \/ exists target, fs w !! link_name dest_dir fpath = Some (NLink target)) ->
  exists w',
    link_file dest_dir fpath w = (Returned tt, w')
    /\ fs w' = <[link_name dest_dir fpath := NLink (Path_of_string fpath)]> (fs w)
    /\ heap w' = heap w /\ environ w' = environ w.
Proof.
  intros Hdir Hclear.
  assert (Hne : link_name dest_dir fpath ≠ dest_dir).
  { intros Heq. rewrite Heq, Hdir in Hclear. by destruct Hclear as [|[? ?]]. }
  pose proof (link_name_parent _ _ Hne) as Hparent.
  run_link_file. destruct Hclear as [Hnone | [target Hlink]].
  - rewrite Hnone. simpl. rewrite Hnone, Hparent, (stat_dir _ _ Hdir).
    eexists. split; [reflexivity|]. done.
  - rewrite Hlink. simpl. rewrite Hlink. simpl. rewrite lookup_delete_eq, Hparent.
    rewrite (stat_dir (delete _ _)) by (by rewrite lookup_delete_ne).
    eexists. split; [reflexivity|]. simpl. by rewrite insert_delete_eq.
Qed.

(** One source file, a real file or directory in the way: nothing is written. *)
Lemma link_file_blocked dest_dir fpath w n :
  fs w !! link_name dest_dir fpath = Some n -> is_link n = false ->
  link_file dest_dir fpath w
  = (Raised (FileExistsError (link_name dest_dir fpath)),
     logged INFO ("Linking " +:+ Path_str (link_name dest_dir fpath) +:+ " -> "
                  +:+ Path_str (Path_of_string fpath)) w).
Proof.
  intros Hn Hreal. run_link_file. rewrite Hn.
  destruct n; try done; simpl; by rewrite Hn.
Qed.

(** Whatever happens to one source file, no real file or directory changes. *)
Lemma link_file_keeps dest_dir fpath w p n :
  fs w !! p = Some n -> is_link n = false ->
  fs (link_file dest_dir fpath w).2 !! p = Some n.
Proof.
  intros Hp Hreal. run_link_file.
  destruct (fs w !! link_name dest_dir fpath) as [m|] eqn:Hm; simpl.
  - destruct m as [c| |target]; simpl; rewrite ?Hm; simpl; try done.
    assert (link_name dest_dir fpath ≠ p) as Hne.
    { intros Heq. rewrite Heq in Hm. rewrite Hm in Hp. by injection Hp as <-. }
    rewrite lookup_delete_eq.
    destruct (stat _ _) as [[]|]; simpl;
      rewrite ?lookup_insert_ne, ?lookup_delete_ne by done; done.
  - rewrite Hm.
    assert (link_name dest_dir fpath ≠ p) as Hne.
    { intros Heq. rewrite Heq in Hm. by rewrite Hm in Hp. }
    destruct (stat _ _) as [[]|]; simpl;
      rewrite ?lookup_insert_ne by done; done.
Qed.

Lemma link_files_keeps dest_dir files : forall w p n,
  fs w !! p = Some n -> is_link n = false ->
  fs (link_files dest_dir files w).2 !! p = Some n.
Proof.
  induction files as [|fpath rest IH]; intros w p n Hp Hreal; simpl; [done|].
  pose proof (link_file_keeps dest_dir fpath w p n Hp Hreal) as Hstep.
  unfold mbind, M_bind.
  destruct (link_file dest_dir fpath w) as [[[]|e] w1]; simpl in *; [|done].
  by apply IH.
Qed.

Lemma link_files_blocked dest_dir files : forall w fpath n,
  fpath ∈ files ->
  fs w !! link_name dest_dir fpath = Some n -> is_link n = false ->
  exists e w', link_files dest_dir files w = (Raised e, w').
Proof.
  induction files as [|first rest IH]; intros w fpath n Hin Hn Hreal.
  - by apply elem_of_nil in Hin.
  - simpl. apply elem_of_cons in Hin as [<- | Hin].
    + rewrite (bind_raised _ _ _ _ _ (link_file_blocked _ _ _ _ Hn Hreal)). eauto.
    + pose proof (link_file_keeps dest_dir first w _ n Hn Hreal) as Hstep.
      unfold mbind, M_bind.
      destruct (link_file dest_dir first w) as [[[]|e] w1]; simpl in *; [|eauto].
      by apply (IH w1 fpath n).
Qed.

Lemma link_files_ok dest_dir files : forall w,
  fs w !! dest_dir = Some NDir ->
  clear_for dest_dir files (fs w) ->
  exists w',
    link_files dest_dir files w = (Returned tt, w')
    /\ fs w' = published dest_dir files (fs w)
    /\ heap w' = heap w /\ environ w' = environ w.
Proof.
  induction files as [|first rest IH]; intros w Hdir Hclear; simpl.
  - by exists w.
  - destruct (link_file_ok dest_dir first w Hdir) as (w1 & Hrun & Hfs & Hheap & Henv).
    { apply Hclear. left. }
    assert (Hne : link_name dest_dir first ≠ dest_dir).
    { intros Heq. specialize (Hclear first). rewrite Heq, Hdir in Hclear.
      destruct Hclear as [|[? ?]]; [left|done|done]. }
    destruct (IH w1) as (w' & Hrest & Hfs' & Hheap' & Henv').
    + by rewrite Hfs, lookup_insert_ne.
    + intros fpath Hin. rewrite Hfs.
      destruct (decide (link_name dest_dir first = link_name dest_dir fpath)) as [Heq|Hdiff].
      * right. rewrite Heq, lookup_insert_eq. eauto.
      * rewrite lookup_insert_ne by done. apply Hclear. by right.
    + exists w'. rewrite (bind_returned _ _ _ _ _ Hrun).
      rewrite Hfs', Hfs, Hheap', Henv'. done.
Qed.

Lemma published_other dest_dir files : forall (f : gmap Path node) p,
  p ∉ (link_name dest_dir <$> files) -> published dest_dir files f !! p = f !! p.
Proof.
  induction files as [|first rest IH]; intros f p Hp; simpl; [done|].
  rewrite fmap_cons in Hp. apply not_elem_of_cons in Hp as [Hne Hp].
  rewrite IH by done. by rewrite lookup_insert_ne.
Qed.

Lemma published_link dest_dir files : forall (f : gmap Path node) fpath,
  NoDup (link_name dest_dir <$> files) -> fpath ∈ files ->
  published dest_dir files f !! link_name dest_dir fpath
  = Some (NLink (Path_of_string fpath)).
Proof.
  induction files as [|first rest IH]; intros f fpath Hnodup Hin.
  - by apply elem_of_nil in Hin.
  - rewrite fmap_cons in Hnodup. apply NoDup_cons in Hnodup as [Hfresh Hnodup].
    simpl. apply elem_of_cons in Hin as [-> | Hin].
    + rewrite published_other by done. apply lookup_insert_eq.
    + by apply IH.
Qed.

Lemma published_twice (dest_dir : Path) (files : list string) (f : gmap Path node) :
  NoDup (link_name dest_dir <$> files) ->
  published dest_dir files (published dest_dir files f) = published dest_dir files f.
Proof.
  intros Hnodup. apply map_eq. intros p.
  destruct (decide (p ∈ (link_name dest_dir <$> files))) as [Hin|Hout].
  - apply list_elem_of_fmap in Hin as (fpath & -> & Hin).
    by rewrite !published_link.
  - by rewrite published_other.
Qed.

(** Source files with distinct base names get distinct links. *)
Lemma link_names_NoDup (dest_dir : Path) (files : list string) :
  NoDup (basename <$> files) -> NoDup (link_name dest_dir <$> files).
Proof.
  induction files as [|first rest IH]; simpl; [constructor|].
  rewrite !NoDup_cons. intros [Hfresh Hnodup]. split; [|by apply IH].
  intros (fpath & Heq & Hin)%list_elem_of_fmap. apply Hfresh.
  apply list_elem_of_fmap. exists fpath. split; [|done].
  by apply (link_name_inj dest_dir).
Qed.

Lemma link_files_returned_clear dest_dir files w w1 :
  link_files dest_dir files w = (Returned tt, w1) -> clear_for dest_dir files (fs w).
Proof.
  intros Hrun fpath Hin.
  destruct (fs w !! link_name dest_dir fpath) as [n|] eqn:Hn; [|by left].
  destruct n as [c| |target]; [| |right; eauto].
  - destruct (link_files_blocked dest_dir files w fpath _ Hin Hn) as (e & w' & Hfail);
      [done | congruence].
  - destruct (link_files_blocked dest_dir files w fpath _ Hin Hn) as (e & w' & Hfail);
      [done | congruence].
Qed.

(** C5. Publishing twice is publishing once. For a destination that is a
    directory and source files with pairwise distinct base names, a second
    call of [link_files] ends as the first did and leaves the file system of
    the first; the call succeeds exactly when nothing but symbolic links
    stands where the links go, and then every source file has its link, named
    by its base name in the destination and pointing at it, the links of
    different sources are different entries, and nothing else has changed. *)
Theorem link_files_idempotent (dest_dir : Path) (files : list string) (w : world) :
  fs w !! dest_dir = Some NDir ->
  NoDup (basename <$> files) ->
  let once := link_files dest_dir files w in
  let twice := (link_files dest_dir files;; link_files dest_dir files) w in
  (twice.1 = once.1 /\ fs twice.2 = fs once.2)
  /\ (clear_for dest_dir files (fs w) <-> once.1 = Returned tt)
  /\ (once.1 = Returned tt ->
        NoDup (link_name dest_dir <$> files)
        /\ (forall fpath, fpath ∈ files ->
              link_name dest_dir fpath = dest_dir ++ [basename fpath]
              /\ fs once.2 !! (dest_dir ++ [basename fpath])
                 = Some (NLink (Path_of_string fpath)))
        /\ (forall p, p ∉ (link_name dest_dir <$> files) ->
              fs once.2 !! p = fs w !! p)).
Proof.
  intros Hdir Hbase once twice.
  pose proof (link_names_NoDup dest_dir files Hbase) as Hnodup.
  assert (Hpub : forall w1, link_files dest_dir files w = (Returned tt, w1) ->
            clear_for dest_dir files (fs w)
            /\ fs w1 = published dest_dir files (fs w)).
  { intros w1 Hrun. pose proof (link_files_returned_clear _ _ _ _ Hrun) as Hclear.
    split; [done|].
    destruct (link_files_ok dest_dir files w Hdir Hclear) as (w1' & Hrun' & Hfs & _).
    congruence. }
  assert (Hnot_dest : clear_for dest_dir files (fs w) ->
            forall fpath, fpath ∈ files -> link_name dest_dir fpath ≠ dest_dir).
  { intros Hclear fpath Hin Heq. specialize (Hclear fpath Hin).
    rewrite Heq, Hdir in Hclear. by destruct Hclear as [|[? ?]]. }
  split; [|split].
  - subst once twice.
    destruct (link_files dest_dir files w) as [[[]|e] w1] eqn:Hrun.
    + destruct (Hpub w1 eq_refl) as [Hclear Hfs].
      rewrite (bind_returned _ _ _ _ _ Hrun).
      destruct (link_files_ok dest_dir files w1) as (w2 & Hrun2 & Hfs2 & _).
      * rewrite Hfs, published_other; [done|].
        intros (fpath & Heq & Hin)%list_elem_of_fmap.
        by apply (Hnot_dest Hclear fpath Hin).
      * intros fpath Hin. right. rewrite Hfs, published_link by done. eauto.
      * rewrite Hrun2. simpl. split; [done|].
        by rewrite Hfs2, Hfs, published_twice.
    + by rewrite (bind_raised _ _ _ _ _ Hrun).
  - subst once. split.
    + intros Hclear.
      destruct (link_files_ok dest_dir files w Hdir Hclear) as (w1 & -> & _). done.
    + destruct (link_files dest_dir files w) as [[[]|e] w1] eqn:Hrun; [|done].
      intros _. by apply (Hpub w1).
  - subst once.
    destruct (link_files dest_dir files w) as [[[]|e] w1] eqn:Hrun; [|done].
    intros _. destruct (Hpub w1 eq_refl) as [Hclear Hfs]. simpl.
    split; [done|]. split.
    + intros fpath Hin.
      assert (link_name dest_dir fpath = dest_dir ++ [basename fpath]) as Hname.
      { pose proof (Hnot_dest Hclear fpath Hin) as Hne.
        rewrite link_name_spec in Hne |- *.
        by destruct (decide (basename fpath = "")). }
      split; [done|]. rewrite <- Hname, Hfs. by apply published_link.
    + intros p Hp. rewrite Hfs. by apply published_other.
Qed.

Lemma link_files_idempotent_witness :
  (link_files ["/"; "out"] ["/run/data.nc"] world_B).1 = Returned tt
  /\ fs ((link_files ["/"; "out"] ["/run/data.nc"];;
          link_files ["/"; "out"] ["/run/data.nc"]) world_B).2
     = fs (link_files ["/"; "out"] ["/run/data.nc"] world_B).2
  /\ fs (link_files ["/"; "out"] ["/run/data.nc"] world_B).2 !! ["/"; "out"; "data.nc"]
     = Some (NLink ["/"; "run"; "data.nc"]).
Proof.
  destruct (link_files_idempotent ["/"; "out"] ["/run/data.nc"] world_B)
    as ([_ Hsame] & [Hclear _] & Hlinks).
  - by vm_compute.
  - apply NoDup_singleton.
  - assert (Hok : (link_files ["/"; "out"] ["/run/data.nc"] world_B).1 = Returned tt).
    { apply Hclear. intros fpath ->%list_elem_of_singleton. left. by vm_compute. }
    split; [exact Hok|]. split; [exact Hsame|].
    destruct (Hlinks Hok) as (_ & Hlink & _).
    destruct (Hlink "/run/data.nc") as [_ Hthere]; [by left|]. exact Hthere.
Defined.

(** C9. A regular file or a directory that has the name of a link is neither
    removed nor replaced by [link_files]: only a symbolic link is unlinked
    before its link is written again; the attempt to write the link over the
    real entry raises [FileExistsError], the call as a whole ends in an
    exception, and every real file or directory is still there afterwards. *)
Theorem link_files_keeps_real_entries (dest_dir : Path) (files : list string)
    (w : world) (fpath : string) (n : node) :
  fpath ∈ files ->
  fs w !! link_name dest_dir fpath = Some n ->
  is_link n = false ->
  (exists e w', link_files dest_dir files w = (Raised e, w')
                /\ fs w' !! link_name dest_dir fpath = Some n)
  /\ (exists w', link_file dest_dir fpath w
                 = (Raised (FileExistsError (link_name dest_dir fpath)), w')
                 /\ fs w' = fs w)
  /\ (forall p m, fs w !! p = Some m -> is_link m = false ->
         fs (link_files dest_dir files w).2 !! p = Some m).
Proof.
  intros Hin Hn Hreal. split; [|split].
  - destruct (link_files_blocked dest_dir files w fpath n Hin Hn Hreal)
      as (e & w' & Hrun).
    exists e, w'. split; [done|].
    pose proof (link_files_keeps dest_dir files w _ n Hn Hreal) as Hkept.
    by rewrite Hrun in Hkept.
  - eexists. split; [by apply (link_file_blocked _ _ _ n)|]. done.
  - intros p m. apply link_files_keeps.
Qed.

Lemma link_files_keeps_real_entries_witness :
  exists e w', link_files ["/"; "out"] ["/run/data.nc"] world_taken = (Raised e, w')
               /\ fs w' !! link_name ["/"; "out"] "/run/data.nc" = Some (NFile "kept").
Proof.
  apply (link_files_keeps_real_entries ["/"; "out"] ["/run/data.nc"] world_taken
           "/run/data.nc" (NFile "kept")).
  - by left.
  - by vm_compute.
  - reflexivity.
Defined.

(** * Properties of [run_fcst] *)

Section RunFcstFacts.

Variable datetime : Type.
Variable get_yaml_config : Path -> M tree.
Variable FV3 : Path -> datetime -> list string -> M (driver).

(** C6. When the driver has run and its completion marker
    "runscript.fv3.done" is not a file of the run directory, [run_fcst]
    logs the error and exits with status 1, whatever the names of the
    module are bound to: the world it leaves is the one the driver left,
    with one more log record, so no link has been created and the marker
    of the orchestration step has not been written. *)
Theorem run_fcst_driver_incomplete (globals : namespace)
    (config_file : Path) (cycle : datetime) (key_path : list string)
    (member : string) (expt_config : tree) (fv3_driver : driver)
    (rundir : string) (w w1 w2 w3 : world) :
  get_yaml_config config_file w = (Returned expt_config, w1) ->
  FV3 config_file cycle key_path (os_environ_set "MEMBER" member w1).2
    = (Returned fv3_driver, w2) ->
  driver_config fv3_driver !! "rundir" = Some (VScalar (SStr rundir)) ->
  driver_run fv3_driver
    (logged INFO ("Will run FV3 in " +:+ Path_str (Path_of_string rundir)) w2)
    = (Returned tt, w3) ->
  (Path_is_file (Path_div (Path_of_string rundir) "runscript.fv3.done") w3).1
    = Returned false ->
  let result :=
    run_fcst_in datetime get_yaml_config FV3 globals
      config_file cycle key_path member w in
  result
  = (Raised (SystemExit 1),
     logged ERROR "Error occurred running FV3. Please see component error logs." w3)
  /\ exit_status result.1 ≠ 0
  /\ fs result.2 = fs w3.
Proof.
  intros Hload Hnew Hrundir Hrun Hmarker result.
  assert (Hresult : result
    = (Raised (SystemExit 1),
       logged ERROR "Error occurred running FV3. Please see component error logs." w3)).
  { subst result. unfold run_fcst_in.
    rewrite (bind_returned _ _ _ _ _ Hload).
    rewrite (bind_returned (os_environ_set "MEMBER" member) _ w1 tt _ eq_refl).
    rewrite (bind_returned _ _ _ _ _ Hnew).
    rewrite (bind_returned (getitem _ "rundir") _ w2 (VScalar (SStr rundir)) w2)
      by (simpl; by rewrite Hrundir).
    rewrite (bind_returned (Path_new (VScalar (SStr rundir))) _ w2
               (Path_of_string rundir) w2 eq_refl).
    rewrite (bind_returned (logging_info _) _ w2 tt _ eq_refl).
    rewrite (bind_returned _ _ _ _ _ Hrun).
    destruct (Path_is_file _ w3) as [o w3'] eqn:Hfile.
    assert (w3' = w3) as -> by (unfold Path_is_file in Hfile; congruence).
    simpl in Hmarker. subst o.
    rewrite (bind_returned _ _ _ _ _ Hfile).
    by erewrite bind_raised. }
  rewrite Hresult. done.
Qed.

End RunFcstFacts.

Lemma run_fcst_driver_incomplete_witness :
  run_scenario module_namespace world_C
  = (Raised (SystemExit 1),
     logged ERROR "Error occurred running FV3. Please see component error logs."
       (logged INFO "Will run FV3 in /run"
          (os_environ_set "MEMBER" "000" world_C).2))
  /\ fs (run_scenario module_namespace world_C).2 = fs_C.
Proof.
  destruct (run_fcst_driver_incomplete unit (λ _, mret config_A)
              (λ _ _ _, mret driver_B) module_namespace
              ["/"; "expt"; "config.yaml"] tt ["task_run_fcst"] "000"
              config_A driver_B "/run" world_C world_C
              (os_environ_set "MEMBER" "000" world_C).2
              (logged INFO "Will run FV3 in /run" (os_environ_set "MEMBER" "000" world_C).2))
    as (Hresult & _ & Hfs); try reflexivity.
  split; [exact Hresult | exact Hfs].
Defined.

(** C7 as stated fails: on the configuration of scenario A the destination is
    found by [run_fcst], while [_walk_key_path] along workflow -> FIXlam
    exits, the value at the end being a string and not a mapping. *)
Lemma fix_lam_path_not_by_walk :
  fix_lam_path_of config_A empty_world = (Returned ["/"; "out"], empty_world)
  /\ _walk_key_path config_A ["workflow"; "FIXlam"] empty_world
     = (Raised (SystemExit 1),
        logged ERROR "Value at workflow -> FIXlam must be a dictionary" empty_world)
  /\ ~ same_behaviour (fix_lam_path_of config_A empty_world)
        (_walk_key_path config_A ["workflow"; "FIXlam"] empty_world).
Proof.
  split; [by vm_compute|]. split; [by vm_compute|].
  vm_compute. tauto.
Qed.

(** C7, amended. [run_fcst] finds the destination directory by indexing the
    loaded configuration twice, at "workflow" and then at "FIXlam", and
    turning the string found there into a path. It agrees with
    [_walk_key_path] on the step to "workflow": when that walk returns a
    tree in which "FIXlam" is a string, the destination is the path of that
    string; when a key of workflow -> FIXlam is missing, the same [KeyError]
    is raised, but no trail is logged; when "workflow" is not a mapping, a
    [TypeError] is raised where the walk would exit. *)
Theorem fix_lam_path_by_indexing (expt_config : tree) (w : world) :
  (forall (t : tree) (s : string),
     _walk_key_path expt_config ["workflow"] w = (Returned t, w) ->
     t !! "FIXlam" = Some (VScalar (SStr s)) ->
     fix_lam_path_of expt_config w = (Returned (Path_of_string s), w))
  /\ (forall (key : string) (w' : world),
        _walk_key_path expt_config ["workflow"; "FIXlam"] w = (Raised (KeyError key), w') ->
        fix_lam_path_of expt_config w = (Raised (KeyError key), w))
  /\ (forall (w' : world),
        _walk_key_path expt_config ["workflow"] w = (Raised (SystemExit 1), w') ->
        exists what, fix_lam_path_of expt_config w = (Raised (TypeError what), w)).
Proof.
  unfold _walk_key_path, fix_lam_path_of. simpl.
  destruct (expt_config !! "workflow") as [[sc|items|d]|] eqn:Hworkflow;
    (split; [|split]).
  - intros t s Hwalk. discriminate Hwalk.
  - intros key w' Hwalk. discriminate Hwalk.
  - intros w' _. destruct sc; eexists; reflexivity.
  - intros t s Hwalk. discriminate Hwalk.
  - intros key w' Hwalk. discriminate Hwalk.
  - intros w' _. eexists; reflexivity.
  - intros t s Hwalk Hfixlam. injection Hwalk as ->.
    unfold mbind, M_bind. simpl. by rewrite Hfixlam.
  - intros key w'. unfold mbind, M_bind. simpl.
    destruct (d !! "FIXlam") as [[sc|items|d']|]; simpl; intros Hwalk;
      try discriminate Hwalk.
    by injection Hwalk as <- _.
  - intros w' Hwalk. discriminate Hwalk.
  - intros t s Hwalk. discriminate Hwalk.
  - intros key w' Hwalk. by injection Hwalk as <- _.
  - intros w' Hwalk. discriminate Hwalk.
Qed.

Lemma fix_lam_path_by_indexing_witness :
  fix_lam_path_of config_A empty_world = (Returned (Path_of_string "/out"), empty_world)
  /\ fix_lam_path_of (∅ : tree) empty_world = (Raised (KeyError "workflow"), empty_world)
  /\ exists what,
       fix_lam_path_of {[ "workflow" := VScalar (SStr "none") ]} empty_world
       = (Raised (TypeError what), empty_world).
Proof.
  split; [|split].
  - apply (proj1 (fix_lam_path_by_indexing config_A empty_world)
             {[ "FIXlam" := VScalar (SStr "/out") ]} "/out"); by vm_compute.
  - apply (proj1 (proj2 (fix_lam_path_by_indexing ∅ empty_world)) "workflow"
             (logged ERROR "Bad config path: workflow" empty_world)).
    by vm_compute.
  - apply (proj2 (proj2 (fix_lam_path_by_indexing
                           {[ "workflow" := VScalar (SStr "none") ]} empty_world))
             (logged ERROR "Value at workflow must be a dictionary" empty_world)).
    by vm_compute.
Defined.

(** C8 fails on the code. In scenario B the driver has completed and the
    destination is found, but [run_fcst] then looks up [_link_files], a name
    the module does not bind ([link_files] is the function it defines), and
    ends in [NameError]: no link is created in "/out" and the marker
    "run_fcst_task_complete.txt" is not written. *)
Theorem run_fcst_scenario_B_NameError :
  run_fcst unit (λ _, mret config_A) (λ _ _ _, mret driver_B)
    ["/"; "expt"; "config.yaml"] tt ["task_run_fcst"] "000" world_B
  = (Raised (NameError "_link_files"),
     logged INFO "Will run FV3 in /run" (os_environ_set "MEMBER" "000" world_B).2)
  /\ fs (run_scenario module_namespace world_B).2 = fs_B
  /\ fs_B !! ["/"; "out"; "data.nc"] = None
  /\ fs_B !! ["/"; "run"; "run_fcst_task_complete.txt"] = None
  /\ exit_status (run_scenario module_namespace world_B).1 = 1.
Proof. repeat split; by vm_compute. Qed.

(** With the three unbound names of the body bound to what their use
    suggests, scenario B ends as the specification describes it. *)
Lemma run_fcst_scenario_B_names_as_used :
  (run_scenario names_as_used world_B).1 = Returned tt
  /\ fs (run_scenario names_as_used world_B).2 !! ["/"; "out"; "data.nc"]
     = Some (NLink ["/"; "run"; "data.nc"])
  /\ fs (run_scenario names_as_used world_B).2 !! ["/"; "run"; "run_fcst_task_complete.txt"]
     = Some (NFile "").
Proof. repeat split; by vm_compute. Qed.

(** The main block never reaches [run_fcst]: it calls [run_fv3], which the
    module does not bind either. *)
Lemma main_NameError (datetime : Type) (get_yaml_config : Path -> M tree)
    (FV3 : Path -> datetime -> list string -> M driver)
    (use_uwtools_logger : M unit) (parse_args : list string -> M (args datetime))
    (argv : list string) (a : args datetime) (w w1 w2 : world) :
  use_uwtools_logger w = (Returned tt, w1) ->
  parse_args argv w1 = (Returned a, w2) ->
  main datetime get_yaml_config FV3 use_uwtools_logger parse_args argv w
  = (Raised (NameError "run_fv3"), w2).
Proof.
  intros Hlogger Hparse. unfold main.
  rewrite (bind_returned _ _ _ _ _ Hlogger), (bind_returned _ _ _ _ _ Hparse).
  reflexivity.
Qed.

(** * [_walk_key_path] and the objects of the configuration *)

Lemma only_at_refl keys w : only_at keys w w.
Proof. done. Qed.

Lemma only_at_trans keys w1 w2 w3 :
  only_at keys w1 w2 -> only_at keys w2 w3 -> only_at keys w1 w3.
Proof.
  intros (Hh & Hf & He) (Hh' & Hf' & He'). repeat split; [|congruence..].
  intros l Hl. by rewrite Hh', Hh.
Qed.

Lemma only_at_bind {A B} keys (m : M A) (k : A -> M B) :
  (forall w, only_at keys w (m w).2) ->
  (forall a w, only_at keys w (k a w).2) ->
  forall w, only_at keys w ((m ≫= k) w).2.
Proof.
  intros Hm Hk w. unfold mbind, M_bind. specialize (Hm w).
  destruct (m w) as [[a|e] w1]; simpl in *; [|done].
  by apply (only_at_trans _ _ w1).
Qed.

Lemma only_at_emit keys lv msg w : only_at keys w (emit lv msg w).2.
Proof. done. Qed.

Lemma only_at_raise {A} keys e w : only_at keys w (@raise A e w).2.
Proof. done. Qed.

Lemma only_at_list_append keys x w : only_at keys w (Heap.list_append keys x w).2.
Proof.
  unfold Heap.list_append. destruct (heap w !! keys) as [[items|entries]|]; try done.
  repeat split. intros l Hl. simpl. by rewrite lookup_insert_ne.
Qed.

Lemma only_at_str_join keys sep lst w : only_at keys w (Heap.str_join sep lst w).2.
Proof.
  unfold Heap.str_join. destruct (heap w !! lst) as [[items|entries]|]; try done.
  by destruct (Heap.strings_of items).
Qed.

Lemma only_at_getitem keys config key w : only_at keys w (Heap.getitem config key w).2.
Proof.
  unfold Heap.getitem. destruct config as [s|l]; [done|].
  destruct (heap w !! l) as [[items|entries]|]; try done.
  by destruct (entries !! key).
Qed.

Lemma only_at_except {A} keys (body : M A) handler :
  (forall w, only_at keys w (body w).2) ->
  (forall e w, only_at keys w (handler e w).2) ->
  forall w, only_at keys w (Heap.except_KeyError body handler w).2.
Proof.
  intros Hbody Hhandler w. unfold Heap.except_KeyError. specialize (Hbody w).
  destruct (body w) as [[a|e] w1]; simpl in *; [done|].
  destruct e; try done. by apply (only_at_trans _ _ w1).
Qed.

(** The loop touches the [keys] list and nothing else in the store. *)
Lemma walk_loop_only_at key_path : forall keys pathstr config w,
  only_at keys w (Heap.walk_loop keys pathstr config key_path w).2.
Proof.
  induction key_path as [|key rest IH]; intros keys pathstr config w; simpl; [done|].
  apply only_at_bind; [apply only_at_list_append|]. intros _.
  apply only_at_bind; [apply only_at_str_join|]. intros trail.
  apply only_at_bind.
  { apply only_at_except; [apply only_at_getitem|]. intros e.
    apply only_at_bind; [apply only_at_emit|]. intros _. apply only_at_raise. }
  intros subconfig. apply only_at_bind; [done|]. intros is_dict.
  destruct is_dict; simpl; [apply IH | by intros ?].
Qed.

(** The objects that were in the store before the call are the same after it. *)
Lemma walk_keeps_objects config key_path w l :
  is_Some (heap w !! l) ->
  heap (Heap._walk_key_path config key_path w).2 !! l = heap w !! l.
Proof.
  intros Hl. unfold Heap._walk_key_path.
  set (keys := fresh (dom (heap w))).
  assert (Hfresh : l ≠ keys).
  { intros ->. apply elem_of_dom in Hl. by apply (is_fresh (dom (heap w))). }
  rewrite (bind_returned (Heap.alloc _) _ w keys _ eq_refl).
  destruct (walk_loop_only_at key_path keys "<unknown>" config
              (Heap.with_heap (<[keys := OList []]> (heap w)) w)) as (Hheap & _).
  rewrite Hheap by done. simpl. by rewrite lookup_insert_ne.
Qed.

(** What a reference stands for depends only on the objects it reaches. *)
Lemma represents_frame (h h' : gmap loc object) :
  (forall l, is_Some (h !! l) -> h' !! l = h !! l) ->
  forall r v, Heap.represents h r v -> Heap.represents h' r v.
Proof.
  intros Hagree. fix IH 3. intros r v Hrep.
  destruct Hrep as [s | l items vs Hl Hitems | l entries d Hl Hentries].
  - constructor.
  - apply (Heap.represents_list h' l items vs).
    + rewrite Hagree; [done | by rewrite Hl].
    + clear Hl. revert items vs Hitems.
      fix IHitems 3. intros items vs Hitems.
      destruct Hitems as [|x y items vs Hxy Hrest]; constructor.
      * by apply IH.
      * by apply IHitems.
  - apply (Heap.represents_dict h' l entries d).
    + rewrite Hagree; [done | by rewrite Hl].
    + intros key. destruct (Hentries key) as [x y Hxy|]; constructor.
      by apply IH.
Qed.

Lemma strings_of_list keys :
  Heap.strings_of ((λ key, RScalar (SStr key)) <$> keys) = Some keys.
Proof.
  induction keys as [|key keys IH]; [done|].
  rewrite fmap_cons. cbn [Heap.strings_of]. by rewrite IH.
Qed.

Lemma represents_dict_inv h r d :
  Heap.represents h r (VDict d) ->
  exists l entries,
    r = RObject l /\ h !! l = Some (ODict entries)
    /\ forall key, option_Forall2 (Heap.represents h) (entries !! key) (d !! key).
Proof. inversion 1; subst. eauto. Qed.

(** The walk on the store follows the walk on the tree the store holds: both
    return (the reference found stands for the tree found) or both raise the
    same exception, and they log the same records. *)
Lemma walk_loop_refines key_path : forall h0 keys_loc keys pathstr config cfg w w',
  (forall l, is_Some (h0 !! l) -> heap w !! l = h0 !! l) ->
  h0 !! keys_loc = None ->
  heap w !! keys_loc = Some (list_of_strings keys) ->
  log w = log w' ->
  Heap.represents h0 config (VDict cfg) ->
  same_walk h0 (Heap.walk_loop keys_loc pathstr config key_path w)
    (walk_loop keys pathstr cfg key_path w').
Proof.
  induction key_path as [|key rest IH];
    intros h0 keys_loc keys pathstr config cfg w w' Hagree Hfresh Hkeys Hlog Hrep.
  - by split.
  - destruct (represents_dict_inv _ _ _ Hrep) as (l & entries & -> & Hl & Hentries).
    assert (Hne : l ≠ keys_loc) by (intros ->; by rewrite Hfresh in Hl).
    set (w1 := Heap.with_heap
                 (<[keys_loc := list_of_strings (keys ++ [key])]> (heap w)) w).
    assert (Hagree1 : forall l', is_Some (h0 !! l') -> heap w1 !! l' = h0 !! l').
    { intros l' Hl'. simpl. rewrite lookup_insert_ne; [by apply Hagree|].
      intros <-. rewrite Hfresh in Hl'. by destruct Hl'. }
    simpl.
    rewrite (bind_returned (Heap.list_append _ _) _ w tt w1).
    2:{ unfold Heap.list_append. rewrite Hkeys. unfold w1, list_of_strings.
        by rewrite fmap_app. }
    rewrite (bind_returned (Heap.str_join _ _) _ w1 (str_join " -> " (keys ++ [key])) w1).
    2:{ unfold Heap.str_join. simpl. rewrite lookup_insert_eq.
        unfold list_of_strings. by rewrite strings_of_list. }
    specialize (Hentries key).
    destruct (entries !! key) as [item|] eqn:Hitem_at;
      destruct (cfg !! key) as [v|] eqn:Hv_at;
      inversion Hentries as [? ? Hitem|]; subst.
    + (* the key is there *)
      rewrite (bind_returned (Heap.except_KeyError _ _) _ w1 item w1).
      2:{ unfold Heap.except_KeyError, Heap.getitem.
          rewrite (Hagree1 l) by (by rewrite Hl). by rewrite Hl, Hitem_at. }
      destruct Hitem as [s | l' items vs Hl' Hitems | l' entries' d Hl' Hentries'].
      * rewrite (bind_returned (Heap.isinstance_dict (RScalar s)) _ w1 false w1 eq_refl).
        split; [done|]. simpl. by rewrite Hlog.
      * rewrite (bind_returned (Heap.isinstance_dict _) _ w1 false w1).
        2:{ unfold Heap.isinstance_dict.
            rewrite (Hagree1 l') by (by rewrite Hl'). by rewrite Hl'. }
        split; [done|]. simpl. by rewrite Hlog.
      * rewrite (bind_returned (Heap.isinstance_dict _) _ w1 true w1).
        2:{ unfold Heap.isinstance_dict.
            rewrite (Hagree1 l') by (by rewrite Hl'). by rewrite Hl'. }
        simpl. apply IH; try done.
        -- simpl. by rewrite lookup_insert_eq.
        -- by apply (Heap.represents_dict h0 l' entries' d).
    + (* the key is missing *)
      rewrite (bind_raised (Heap.except_KeyError _ _) _ w1 (KeyError key)
                 (logged ERROR ("Bad config path: " +:+ str_join " -> " (keys ++ [key])) w1)).
      2:{ unfold Heap.except_KeyError, Heap.getitem.
          rewrite (Hagree1 l) by (by rewrite Hl). by rewrite Hl, Hitem_at. }
      split; [done|]. simpl. by rewrite Hlog.
Qed.

(** X4. The walk on the store follows the walk on the tree that the store
    holds behind the reference: both return, the reference returned standing
    for the tree returned, or both raise the same exception; and both log the
    same records. *)
Lemma walk_refines config cfg key_path w :
  Heap.represents (heap w) config (VDict cfg) ->
  same_walk (heap w) (Heap._walk_key_path config key_path w)
    (_walk_key_path cfg key_path w).
Proof.
  intros Hrep. unfold Heap._walk_key_path, _walk_key_path.
  rewrite (bind_returned (Heap.alloc _) _ w (fresh (dom (heap w))) _ eq_refl).
  apply walk_loop_refines; try done.
  - intros l Hl. simpl. rewrite lookup_insert_ne; [done|].
    intros <-. apply elem_of_dom in Hl. by apply (is_fresh (dom (heap w))).
  - apply not_elem_of_dom, is_fresh.
  - simpl. by rewrite lookup_insert_eq.
Qed.

(** C10. [_walk_key_path] leaves the configuration as it was: whether the
    call returns or raises, every object that was in the store before the
    call is the same object with the same content after it (the only object
    the call writes to is the [keys] list it creates), the reference it was
    given stands for the same tree as before, and the file system and the
    environment are untouched. *)
Theorem walk_leaves_config_unchanged (config : ref) (key_path : list string) (w : world) :
  let after := (Heap._walk_key_path config key_path w).2 in
  (forall l, is_Some (heap w !! l) -> heap after !! l = heap w !! l)
  /\ (forall v, Heap.represents (heap w) config v -> Heap.represents (heap after) config v)
  /\ fs after = fs w
  /\ environ after = environ w.
Proof.
  intros after.
  assert (Hkept : forall l, is_Some (heap w !! l) -> heap after !! l = heap w !! l).
  { intros l. apply walk_keeps_objects. }
  split; [done|]. split; [intros v; by apply represents_frame|].
  subst after. unfold Heap._walk_key_path.
  rewrite (bind_returned (Heap.alloc _) _ w (fresh (dom (heap w))) _ eq_refl).
  destruct (walk_loop_only_at key_path (fresh (dom (heap w))) "<unknown>" config
              (Heap.with_heap (<[fresh (dom (heap w)) := OList []]> (heap w)) w))
    as (_ & Hfs & Henv).
  by rewrite Hfs, Henv.
Qed.

Lemma walk_leaves_config_unchanged_witness :
  heap (Heap._walk_key_path (RObject 1%positive) ["workflow"; "missing"] world_A).2
    !! 1%positive
  = heap_A !! 1%positive.
Proof.
  apply (proj1 (walk_leaves_config_unchanged (RObject 1%positive)
                  ["workflow"; "missing"] world_A) 1%positive).
  eexists. by vm_compute.
Defined.

(** * Further properties of [_walk_key_path] *)

(** Along any path, either the descent through mappings reaches a mapping, or
    there is a first key at which it stops: absent, or not a mapping. *)
Lemma value_at_first_stop key_path : forall config : tree,
  (exists t, value_at (VDict config) key_path = Some (VDict t))
  \/ (exists pre key post t,
        key_path = pre ++ key :: post
        /\ value_at (VDict config) pre = Some (VDict t)
        /\ (t !! key = None
            \/ exists v, t !! key = Some v /\ isinstance_dict v = false)).
Proof.
  induction key_path as [|key rest IH]; intros config.
  - left. by exists config.
  - destruct (config !! key) as [v|] eqn:Hkey.
    + destruct v as [s|items|d].
      * right. exists [], key, rest, config. repeat split; try done.
        right. by exists (VScalar s).
      * right. exists [], key, rest, config. repeat split; try done.
        right. by exists (VSeq items).
      * destruct (IH d) as [[t Ht] | (pre & key' & post & t & -> & Hpre & Hstop)].
        -- left. exists t. simpl. by rewrite Hkey.
        -- right. exists (key :: pre), key', post, t. repeat split; try done.
           simpl. by rewrite Hkey.
    + right. exists [], key, rest, config. repeat split; try done. by left.
Qed.

Lemma walk_stops_missing config t pre key post w :
  value_at (VDict config) pre = Some (VDict t) -> t !! key = None ->
  _walk_key_path config (pre ++ key :: post) w
  = (Raised (KeyError key), logged ERROR (bad_path_record (pre ++ [key])) w).
Proof.
  intros Hat Hkey. unfold _walk_key_path.
  rewrite (walk_loop_descend pre [] _ config t (key :: post) w Hat).
  simpl. by rewrite Hkey.
Qed.

Lemma walk_stops_not_a_dict config t pre key post v w :
  value_at (VDict config) pre = Some (VDict t) -> t !! key = Some v ->
  isinstance_dict v = false ->
  _walk_key_path config (pre ++ key :: post) w
  = (Raised (SystemExit 1), logged ERROR (not_a_dict_record (pre ++ [key])) w).
Proof.
  intros Hat Hkey Hv. unfold _walk_key_path.
  rewrite (walk_loop_descend pre [] _ config t (key :: post) w Hat).
  simpl. rewrite Hkey. by destruct v.
Qed.

(** X1. Every call of [_walk_key_path] ends in one of three ways, and the
    path decides which: it returns the mapping at the end of the path and
    logs nothing; or it stops at the first key that is absent, with
    [KeyError] and one error record; or it stops at the first key whose value
    is not a mapping, with exit status 1 and one error record. It raises
    nothing else, and the keys after the first offending one are never looked
    at. *)
Theorem walk_three_outcomes (config : tree) (key_path : list string) (w : world) :
  (exists t,
     value_at (VDict config) key_path = Some (VDict t)
     /\ _walk_key_path config key_path w = (Returned t, w))
  \/ (exists pre key post t,
        key_path = pre ++ key :: post
        /\ value_at (VDict config) pre = Some (VDict t)
        /\ t !! key = None
        /\ _walk_key_path config key_path w
           = (Raised (KeyError key), logged ERROR (bad_path_record (pre ++ [key])) w))
  \/ (exists pre key post t v,
        key_path = pre ++ key :: post
        /\ value_at (VDict config) pre = Some (VDict t)
        /\ t !! key = Some v /\ isinstance_dict v = false
        /\ _walk_key_path config key_path w
           = (Raised (SystemExit 1),
              logged ERROR (not_a_dict_record (pre ++ [key])) w)).
Proof.
  destruct (value_at_first_stop key_path config)
    as [[t Ht] | (pre & key & post & t & -> & Hpre & [Hnone | (v & Hv & Hnot)])].
  - left. exists t. split; [done|]. by apply walk_loop_returns.
  - right. left. exists pre, key, post, t. repeat split; try done.
    by apply (walk_stops_missing config t).
  - right. right. exists pre, key, post, t, v. repeat split; try done.
    by apply (walk_stops_not_a_dict config t pre key post v).
Qed.

(** X2. [_walk_key_path] returns a tree exactly when the descent along the
    whole path goes through mappings and ends on one, and what it returns is
    then that mapping, the world being left as it was: a returned tree is
    never anything but the sub-tree at the path. *)
Theorem walk_returns_iff (config t : tree) (key_path : list string) (w w' : world) :
  _walk_key_path config key_path w = (Returned t, w')
  <-> value_at (VDict config) key_path = Some (VDict t) /\ w' = w.
Proof.
  split.
  - intros Hwalk.
    destruct (value_at_first_stop key_path config)
      as [[t' Ht'] | (pre & key & post & t' & -> & Hpre & [Hnone | (v & Hv & Hnot)])].
    + unfold _walk_key_path in Hwalk.
      rewrite (walk_loop_returns key_path [] "<unknown>" config t' w Ht') in Hwalk.
      by injection Hwalk as <- <-.
    + rewrite (walk_stops_missing config t' pre key post w Hpre Hnone) in Hwalk.
      discriminate.
    + rewrite (walk_stops_not_a_dict config t' pre key post v w Hpre Hv Hnot) in Hwalk.
      discriminate.
  - intros [Hat ->]. by apply walk_loop_returns.
Qed.

Lemma walk_returns_iff_witness :
  _walk_key_path config_A ["workflow"] empty_world
  = (Returned {[ "FIXlam" := VScalar (SStr "/out") ]}, empty_world).
Proof.
  apply (proj2 (walk_returns_iff config_A {[ "FIXlam" := VScalar (SStr "/out") ]}
                  ["workflow"] empty_world empty_world)).
  split; [by vm_compute | reflexivity].
Defined.

(** Whether the loop returns or raises, and what, does not depend on the keys
    recorded so far nor on the world. *)
Lemma walk_loop_outcome key_path : forall keys keys' ps ps' config w w',
  (walk_loop keys ps config key_path w).1 = (walk_loop keys' ps' config key_path w').1.
Proof.
  induction key_path as [|key rest IH]; intros keys keys' ps ps' config w w'; simpl;
    [done|].
  destruct (config !! key) as [[s|items|d]|]; [done | done | apply IH | done].
Qed.

(** X3. Walking composes: when the walk along [pre] returns the tree [t],
    the walk along [pre ++ post] from the configuration ends as the walk
    along [post] from [t] does, returning the same tree or raising the same
    exception (only the trail in the log record is longer). *)
Theorem walk_composes (config t : tree) (pre post : list string) (w : world) :
  _walk_key_path config pre w = (Returned t, w) ->
  (_walk_key_path config (pre ++ post) w).1 = (_walk_key_path t post w).1.
Proof.
  intros Hpre.
  destruct (value_at_first_stop pre config)
    as [[t' Ht'] | (p & key & q & t' & -> & Hp & [Hnone | (v & Hv & Hnot)])].
  - unfold _walk_key_path in Hpre.
    rewrite (walk_loop_returns pre [] "<unknown>" config t' w Ht') in Hpre.
    injection Hpre as ->. unfold _walk_key_path.
    rewrite (walk_loop_descend pre [] _ config t post w Ht').
    apply walk_loop_outcome.
  - rewrite (walk_stops_missing config t' p key q w Hp Hnone) in Hpre. discriminate.
  - rewrite (walk_stops_not_a_dict config t' p key q v w Hp Hv Hnot) in Hpre.
    discriminate.
Qed.

Lemma walk_composes_witness :
  (_walk_key_path config_A (["workflow"] ++ ["FIXlam"; "deeper"]) empty_world).1
  = (_walk_key_path {[ "FIXlam" := VScalar (SStr "/out") ]} ["FIXlam"; "deeper"]
       empty_world).1.
Proof.
  apply (walk_composes config_A {[ "FIXlam" := VScalar (SStr "/out") ]}
           ["workflow"] ["FIXlam"; "deeper"] empty_world).
  by vm_compute.
Defined.

Lemma represents_heap_A :
  Heap.represents heap_A (RObject 1%positive) (VDict config_A).
Proof.
  apply (Heap.represents_dict heap_A 1%positive {[ "workflow" := RObject 2%positive ]});
    [by vm_compute|].
  intros key. unfold config_A.
  destruct (decide (key = "workflow")) as [->|Hne].
  - rewrite !lookup_singleton_eq. constructor.
    apply (Heap.represents_dict heap_A 2%positive {[ "FIXlam" := RScalar (SStr "/out") ]});
      [by vm_compute|].
    intros key. destruct (decide (key = "FIXlam")) as [->|Hne].
    + rewrite !lookup_singleton_eq. constructor. constructor.
    + rewrite !lookup_singleton_ne by done. constructor.
  - rewrite !lookup_singleton_ne by done. constructor.
Qed.

Lemma walk_refines_witness :
  same_walk heap_A
    (Heap._walk_key_path (RObject 1%positive) ["workflow"; "missing"] world_A)
    (_walk_key_path config_A ["workflow"; "missing"] world_A).
Proof.
  apply (walk_refines (RObject 1%positive) config_A ["workflow"; "missing"] world_A).
  exact represents_heap_A.
Defined.

Lemma bind_returned_inv {A B} (m : M A) (k : A -> M B) w b w' :
  (m ≫= k) w = (Returned b, w') ->
  exists a w1, m w = (Returned a, w1) /\ k a w1 = (Returned b, w').
Proof.
  unfold mbind, M_bind. destruct (m w) as [[a|e] w1]; [eauto | discriminate].
Qed.

(** A reference the loop returns after at least one key is a mapping that was
    in the store when the loop started. *)
Lemma store_walk_loop_alias key_path : forall keys pathstr config w r w',
  Heap.walk_loop keys pathstr config key_path w = (Returned r, w') ->
  (key_path = [] /\ r = config)
  \/ exists l entries, r = RObject l /\ l ≠ keys /\ heap w !! l = Some (ODict entries).
Proof.
  induction key_path as [|key rest IH]; intros keys pathstr config w r w' Hwalk.
  - left. split; [done|]. by injection Hwalk as <- _.
  - right. simpl in Hwalk.
    apply bind_returned_inv in Hwalk as ([] & w1 & Happend & Hwalk).
    apply bind_returned_inv in Hwalk as (trail & w1' & Hjoin & Hwalk).
    apply bind_returned_inv in Hwalk as (item & w2 & Hget & Hwalk).
    apply bind_returned_inv in Hwalk as (is_dict & w3 & Hdict & Hwalk).
    unfold Heap.list_append in Happend.
    destruct (heap w !! keys) as [[items|entries]|] eqn:Hkeys; try discriminate.
    injection Happend as <-.
    unfold Heap.str_join in Hjoin. simpl in Hjoin.
    rewrite lookup_insert_eq in Hjoin.
    destruct (Heap.strings_of _) as [strs|]; [|discriminate].
    injection Hjoin as <- <-.
    unfold Heap.except_KeyError, Heap.getitem in Hget.
    assert (w2 = Heap.with_heap (<[keys := OList (items ++ [RScalar (SStr key)])]> (heap w)) w)
      as ->.
    { destruct config as [s|l]; [discriminate|].
      destruct (heap _ !! l) as [[its|entries]|]; try discriminate.
      destruct (entries !! key); [|discriminate]. by injection Hget as _ <-. }
    clear Hget.
    unfold Heap.isinstance_dict in Hdict. injection Hdict as <- <-.
    assert (Hitem : exists l entries,
              item = RObject l /\ l ≠ keys /\ heap w !! l = Some (ODict entries)
              /\ Heap.walk_loop keys
                   (String.concat " -> " strs) item rest
                   (Heap.with_heap (<[keys := OList (items ++ [RScalar (SStr key)])]> (heap w)) w)
                 = (Returned r, w')).
    { destruct item as [s|l]; [discriminate|]. simpl in Hwalk.
      destruct (decide (l = keys)) as [->|Hne].
      - rewrite lookup_insert_eq in Hwalk. discriminate.
      - rewrite lookup_insert_ne in Hwalk by done.
        destruct (heap w !! l) as [[its|entries]|] eqn:Hl; try discriminate.
        by exists l, entries. }
    destruct Hitem as (l & entries & -> & Hne & Hl & Hrest).
    destruct (IH _ _ _ _ _ _ Hrest) as [[_ ->] | (l' & entries' & -> & Hne' & Hl')].
    + by exists l, entries.
    + exists l', entries'. repeat split; try done.
      simpl in Hl'. by rewrite lookup_insert_ne in Hl'.
Qed.

(** X5. [_walk_key_path] hands back the configuration's own objects, never a
    copy: a reference it returns is the reference it was given (for the empty
    path) or refers to a mapping that was in the store before the call, and
    that mapping has the same content after the call. *)
Theorem store_walk_returns_alias (config : ref) (key_path : list string)
    (w : world) (r : ref) (w' : world) :
  Heap._walk_key_path config key_path w = (Returned r, w') ->
  (key_path = [] /\ r = config)
  \/ exists l entries,
       r = RObject l
       /\ heap w !! l = Some (ODict entries)
       /\ heap w' !! l = Some (ODict entries).
Proof.
  intros Hwalk.
  pose proof (walk_keeps_objects config key_path w) as Hkept.
  rewrite Hwalk in Hkept. simpl in Hkept.
  unfold Heap._walk_key_path in Hwalk.
  rewrite (bind_returned (Heap.alloc _) _ w (fresh (dom (heap w))) _ eq_refl) in Hwalk.
  destruct (store_walk_loop_alias _ _ _ _ _ _ _ Hwalk)
    as [? | (l & entries & -> & Hne & Hl)]; [by left|].
  right. simpl in Hl. rewrite lookup_insert_ne in Hl by done.
  exists l, entries. repeat split; [done|].
  rewrite Hkept; [done | by rewrite Hl].
Qed.

Lemma store_walk_returns_alias_witness :
  (["workflow"] = [] /\ RObject 2%positive = RObject 1%positive)
  \/ exists l entries,
       RObject 2%positive = RObject l
       /\ heap world_A !! l = Some (ODict entries)
       /\ heap (Heap._walk_key_path (RObject 1%positive) ["workflow"] world_A).2 !! l
          = Some (ODict entries).
Proof.
  apply (store_walk_returns_alias (RObject 1%positive) ["workflow"] world_A
           (RObject 2%positive)
           (Heap._walk_key_path (RObject 1%positive) ["workflow"] world_A).2).
  by vm_compute.
Defined.

(** * Further properties of [link_files] *)

Lemma link_files_app (dest_dir : Path) (files1 files2 : list string) (w : world) :
  link_files dest_dir (files1 ++ files2) w
  = (link_files dest_dir files1;; link_files dest_dir files2) w.
Proof.
  revert w. induction files1 as [|fpath rest IH]; intros w; simpl; [done|].
  unfold mbind, M_bind in *.
  destruct (link_file dest_dir fpath w) as [[[]|e] w1]; [apply IH | done].
Qed.

Lemma published_app (dest_dir : Path) (files1 files2 : list string) (f : gmap Path node) :
  published dest_dir (files1 ++ files2) f
  = published dest_dir files2 (published dest_dir files1 f).
Proof.
  revert f. induction files1 as [|fpath rest IH]; intros f; simpl; [done|]. apply IH.
Qed.

Lemma published_lookup (dest_dir : Path) (files : list string) : forall (f : gmap Path node) (p : Path),
  published dest_dir files f !! p = link_target dest_dir files p (f !! p).
Proof.
  induction files as [|fpath rest IH]; intros f p; simpl; [done|].
  rewrite IH, lookup_insert. by destruct (decide (link_name dest_dir fpath = p)).
Qed.

Lemma link_target_fixed_or_constant (dest_dir : Path) (files : list string) (p : Path) :
  (forall before, link_target dest_dir files p before = before)
  \/ (forall before before',
        link_target dest_dir files p before = link_target dest_dir files p before').
Proof.
  induction files as [|fpath rest IH]; simpl; [by left|].
  destruct (decide (link_name dest_dir fpath = p)); [by right | done].
Qed.

Lemma published_twice_any (dest_dir : Path) (files : list string) (f : gmap Path node) :
  published dest_dir files (published dest_dir files f) = published dest_dir files f.
Proof.
  apply map_eq. intros p. rewrite !published_lookup.
  destruct (link_target_fixed_or_constant dest_dir files p) as [Hfixed | Hconst].
  - by rewrite !Hfixed.
  - apply Hconst.
Qed.

Lemma published_is_link (dest_dir : Path) (files : list string) : forall (f : gmap Path node) fpath,
  fpath ∈ files ->
  exists target, published dest_dir files f !! link_name dest_dir fpath = Some (NLink target).
Proof.
  induction files as [|first rest IH]; intros f fpath Hin.
  - by apply elem_of_nil in Hin.
  - simpl. destruct (decide (link_name dest_dir fpath ∈ (link_name dest_dir <$> rest)))
      as [Hlater | Hlast].
    + apply list_elem_of_fmap in Hlater as (g & -> & Hg). by apply IH.
    + rewrite published_other by done.
      apply elem_of_cons in Hin as [-> | Hin].
      * rewrite lookup_insert_eq. eauto.
      * destruct Hlast. apply list_elem_of_fmap. eauto.
Qed.

Lemma clear_for_not_dest (dest_dir : Path) (files : list string) (f : gmap Path node) :
  f !! dest_dir = Some NDir -> clear_for dest_dir files f ->
  dest_dir ∉ (link_name dest_dir <$> files).
Proof.
  intros Hdir Hclear (fpath & Heq & Hin)%list_elem_of_fmap.
  specialize (Hclear fpath Hin). rewrite <- Heq, Hdir in Hclear.
  by destruct Hclear as [|[? ?]].
Qed.

(** X6. Publishing twice is publishing once whatever the base names are: for
    a destination that is a directory and any list of source files, base
    names repeated or not, a second call of [link_files] ends as the first
    did and leaves the file system of the first. *)
Theorem link_files_twice_any (dest_dir : Path) (files : list string) (w : world) :
  fs w !! dest_dir = Some NDir ->
  ((link_files dest_dir files;; link_files dest_dir files) w).1
  = (link_files dest_dir files w).1
  /\ fs ((link_files dest_dir files;; link_files dest_dir files) w).2
     = fs (link_files dest_dir files w).2.
Proof.
  intros Hdir.
  destruct (link_files dest_dir files w) as [[[]|e] w1] eqn:Hrun.
  - pose proof (link_files_returned_clear _ _ _ _ Hrun) as Hclear.
    destruct (link_files_ok dest_dir files w Hdir Hclear) as (w1' & Hrun' & Hfs & _).
    assert (w1' = w1) as -> by congruence.
    rewrite (bind_returned _ _ _ _ _ Hrun).
    destruct (link_files_ok dest_dir files w1) as (w2 & Hrun2 & Hfs2 & _).
    + rewrite Hfs, published_other; [done|]. by apply (clear_for_not_dest _ _ (fs w)).
    + intros fpath Hin. right. rewrite Hfs. by apply published_is_link.
    + rewrite Hrun2. simpl. split; [done|].
      by rewrite Hfs2, Hfs, published_twice_any.
  - by rewrite (bind_raised _ _ _ _ _ Hrun).
Qed.

Lemma link_files_twice_any_witness :
  ((link_files ["/"; "out"] ["/run/data.nc"; "/old/data.nc"];;
    link_files ["/"; "out"] ["/run/data.nc"; "/old/data.nc"]) world_B).1
  = (link_files ["/"; "out"] ["/run/data.nc"; "/old/data.nc"] world_B).1
  /\ fs ((link_files ["/"; "out"] ["/run/data.nc"; "/old/data.nc"];;
          link_files ["/"; "out"] ["/run/data.nc"; "/old/data.nc"]) world_B).2
     = fs (link_files ["/"; "out"] ["/run/data.nc"; "/old/data.nc"] world_B).2.
Proof.
  apply (link_files_twice_any ["/"; "out"] ["/run/data.nc"; "/old/data.nc"] world_B).
  by vm_compute.
Defined.

(** X7. When source files share a base name, the last of them wins: after a
    successful call the link of that name points at the last source file in
    the list that has it, and the earlier ones have no link of their own. The
    call succeeds whenever the destination is a directory and nothing but
    symbolic links stands at the link names. *)
Theorem link_files_last_wins (dest_dir : Path) (earlier later : list string)
    (fpath : string) (w : world) :
  fs w !! dest_dir = Some NDir ->
  clear_for dest_dir (earlier ++ fpath :: later) (fs w) ->
  (forall g, g ∈ later -> basename g ≠ basename fpath) ->
  exists w',
    link_files dest_dir (earlier ++ fpath :: later) w = (Returned tt, w')
    /\ fs w' !! link_name dest_dir fpath = Some (NLink (Path_of_string fpath))
    /\ (forall g, g ∈ earlier -> basename g = basename fpath ->
          fs w' !! link_name dest_dir g = Some (NLink (Path_of_string fpath))).
Proof.
  intros Hdir Hclear Hlater.
  destruct (link_files_ok dest_dir _ w Hdir Hclear) as (w' & Hrun & Hfs & _).
  exists w'. split; [done|].
  assert (Hlink : fs w' !! link_name dest_dir fpath = Some (NLink (Path_of_string fpath))).
  { rewrite Hfs, published_app. simpl. rewrite published_other.
    - apply lookup_insert_eq.
    - intros (g & Heq & Hg)%list_elem_of_fmap.
      apply (Hlater g Hg). symmetry. by apply (link_name_inj dest_dir). }
  split; [done|]. intros g _ Hsame.
  assert (link_name dest_dir g = link_name dest_dir fpath) as ->; [|done].
  unfold link_name. by rewrite Hsame.
Qed.

Lemma link_files_last_wins_witness :
  exists w',
    link_files ["/"; "out"] (["/old/data.nc"] ++ "/run/data.nc" :: []) world_B
    = (Returned tt, w')
    /\ fs w' !! link_name ["/"; "out"] "/run/data.nc"
       = Some (NLink (Path_of_string "/run/data.nc"))
    /\ (forall g, g ∈ ["/old/data.nc"] -> basename g = basename "/run/data.nc" ->
          fs w' !! link_name ["/"; "out"] g = Some (NLink (Path_of_string "/run/data.nc"))).
Proof.
  apply (link_files_last_wins ["/"; "out"] ["/old/data.nc"] [] "/run/data.nc" world_B).
  - by vm_compute.
  - intros g Hg. left.
    apply elem_of_cons in Hg as [-> | Hg]; [by vm_compute|].
    apply list_elem_of_singleton in Hg as ->. by vm_compute.
  - intros g Hg. by apply elem_of_nil in Hg.
Defined.

(** X8. [link_files] stops at the first source file whose link name is taken
    by a real file or directory, and undoes nothing: it raises
    [FileExistsError] for that link name, the links of the files before it
    stay written, and the files after it are not linked. *)
Theorem link_files_stops_at_first_taken (dest_dir : Path) (before after : list string)
    (fpath : string) (n : node) (w : world) :
  fs w !! dest_dir = Some NDir ->
  clear_for dest_dir before (fs w) ->
  fs w !! link_name dest_dir fpath = Some n ->
  is_link n = false ->
  exists w',
    link_files dest_dir (before ++ fpath :: after) w
    = (Raised (FileExistsError (link_name dest_dir fpath)), w')
    /\ fs w' = published dest_dir before (fs w).
Proof.
  intros Hdir Hclear Hn Hreal.
  destruct (link_files_ok dest_dir before w Hdir Hclear) as (w1 & Hrun & Hfs & _).
  pose proof (link_files_keeps dest_dir before w _ n Hn Hreal) as Hkept.
  rewrite Hrun in Hkept. simpl in Hkept.
  eexists. rewrite link_files_app, (bind_returned _ _ _ _ _ Hrun). simpl.
  rewrite (bind_raised _ _ _ _ _ (link_file_blocked _ _ _ _ Hkept Hreal)).
  split; [reflexivity|]. done.
Qed.

Lemma link_files_stops_at_first_taken_witness :
  exists w',
    link_files ["/"; "out"] (["/run/first.nc"] ++ "/run/data.nc" :: ["/run/last.nc"])
      world_taken
    = (Raised (FileExistsError (link_name ["/"; "out"] "/run/data.nc")), w')
    /\ fs w' = published ["/"; "out"] ["/run/first.nc"] (fs world_taken).
Proof.
  apply (link_files_stops_at_first_taken ["/"; "out"] ["/run/first.nc"]
           ["/run/last.nc"] "/run/data.nc" (NFile "kept") world_taken).
  - by vm_compute.
  - intros g ->%list_elem_of_singleton. left. by vm_compute.
  - by vm_compute.
  - reflexivity.
Defined.

(** Whatever becomes of its link, a source file gets its record in the log,
    and only the entry at its link name can change. *)
Lemma link_file_effects (dest_dir : Path) (fpath : string) (w : world) :
  log (link_file dest_dir fpath w).2 = log w ++ [linking_record dest_dir fpath]
  /\ (forall p, p ≠ link_name dest_dir fpath ->
        fs (link_file dest_dir fpath w).2 !! p = fs w !! p)
  /\ heap (link_file dest_dir fpath w).2 = heap w
  /\ environ (link_file dest_dir fpath w).2 = environ w.
Proof.
  run_link_file.
  destruct (fs w !! link_name dest_dir fpath) as [[c| |target]|] eqn:Hm; simpl;
    rewrite ?Hm; simpl; rewrite ?lookup_delete_eq;
    try destruct (stat _ _) as [[]|]; simpl; repeat split; try done;
    intros p Hp; rewrite ?lookup_insert_ne, ?lookup_delete_ne by done; done.
Qed.

(** X9. [link_files] logs one "Linking <link> -> <source>" record for each
    source file it gets to, in the order of the list and before it tries to
    write the link: the log grows by the records of the first [n] files,
    where [n] is the whole list when the call returns, and at least one when
    the list is not empty. *)
Theorem link_files_log (dest_dir : Path) (files : list string) (w : world) :
  exists n,
    (n <= length files)%nat
    /\ log (link_files dest_dir files w).2
       = log w ++ (linking_record dest_dir <$> take n files)
    /\ ((link_files dest_dir files w).1 = Returned tt -> n = length files)
    /\ (files ≠ [] -> (0 < n)%nat).
Proof.
  revert w. induction files as [|fpath rest IH]; intros w.
  - exists 0%nat. simpl. rewrite app_nil_r. done.
  - simpl. destruct (link_file_effects dest_dir fpath w) as (Hlog & _).
    unfold mbind, M_bind.
    destruct (link_file dest_dir fpath w) as [[[]|e] w1]; simpl in *.
    + destruct (IH w1) as (n & Hn & Hlogs & Hall & _).
      exists (S n). repeat split.
      * lia.
      * rewrite Hlogs, Hlog, <- app_assoc. done.
      * intros Hok. by rewrite (Hall Hok).
      * lia.
    + exists 1%nat. repeat split; [lia | done | done | lia].
Qed.

Lemma link_files_log_witness :
  exists n,
    (n <= length ["/run/data.nc"])%nat
    /\ log (link_files ["/"; "out"] ["/run/data.nc"] world_B).2
       = log world_B ++ (linking_record ["/"; "out"] <$> take n ["/run/data.nc"])
    /\ n = length ["/run/data.nc"].
Proof.
  destruct (link_files_log ["/"; "out"] ["/run/data.nc"] world_B)
    as (n & Hn & Hlog & Hall & _).
  exists n. split; [exact Hn|]. split; [exact Hlog|].
  apply Hall. by vm_compute.
Defined.

(** X10. [link_files] writes nowhere but at the link names of its source
    files: whether it returns or raises, every other entry of the file
    system, the source files among them, is as before, and so are the object
    store and the environment. *)
Theorem link_files_frame (dest_dir : Path) (files : list string) (w : world) :
  (forall p, p ∉ (link_name dest_dir <$> files) ->
     fs (link_files dest_dir files w).2 !! p = fs w !! p)
  /\ heap (link_files dest_dir files w).2 = heap w
  /\ environ (link_files dest_dir files w).2 = environ w.
Proof.
  revert w. induction files as [|fpath rest IH]; intros w; [done|].
  simpl. destruct (link_file_effects dest_dir fpath w) as (_ & Hfs & Hheap & Henv).
  unfold mbind, M_bind.
  destruct (link_file dest_dir fpath w) as [[[]|e] w1]; simpl in *.
  - destruct (IH w1) as (Hfs' & Hheap' & Henv'). repeat split; [|congruence..].
    intros p [Hne Hp]%not_elem_of_cons. rewrite Hfs' by done. by apply Hfs.
  - repeat split; try done. intros p [Hne _]%not_elem_of_cons. by apply Hfs.
Qed.

Lemma link_files_frame_witness :
  fs (link_files ["/"; "out"] ["/run/data.nc"] world_B).2 !! ["/"; "run"; "data.nc"]
  = fs world_B !! ["/"; "run"; "data.nc"].
Proof.
  apply (proj1 (link_files_frame ["/"; "out"] ["/run/data.nc"] world_B)).
  intros Hin%list_elem_of_singleton. vm_compute in Hin. discriminate Hin.
Defined.

(** X11. The link of a source file never lands outside the destination
    directory or below a subdirectory of it: its name is the destination
    itself (when the source has no base name, as "/" or "") or the
    destination followed by one more part, the base name of the source,
    which holds no slash and is neither empty nor "."; the directory part of
    the source plays no role. *)
Theorem link_name_in_dest (dest_dir : Path) (fpath : string) :
  (basename fpath = "" /\ link_name dest_dir fpath = dest_dir)
  \/ (link_name dest_dir fpath = dest_dir ++ [basename fpath]
      /\ Path_parent (link_name dest_dir fpath) = dest_dir
      /\ lacks "/" (basename fpath) = true
      /\ basename fpath ≠ "" /\ basename fpath ≠ ".").
Proof.
  pose proof (link_name_spec dest_dir fpath) as Hspec.
  destruct (basename_part fpath) as [Hnone | [Hlacks Hcomp]].
  - left. split; [done|]. rewrite Hspec. by destruct (decide (basename fpath = "")).
  - right. apply bool_decide_eq_true in Hcomp as [Hne Hdot].
    destruct (decide (basename fpath = "")); [done|].
    repeat split; try done.
    apply link_name_parent. rewrite Hspec.
    intros Heq. apply (f_equal length) in Heq. rewrite length_app in Heq.
    simpl in Heq. lia.
Qed.



(** * The key path of the command line *)

Lemma concat_cons_char sep c word words :
  String.concat sep (String c word :: words)
  = String c (String.concat sep (word :: words)).
Proof. by destruct words. Qed.

Lemma split_on_join_dot s : String.concat "." (split_on "." s) = s.
Proof.
  induction s as [|c s IH]; simpl; [done|].
  destruct (decide (c = "."%char)) as [->|Hne].
  - pose proof (split_on_nonempty "." s) as Hsplit.
    destruct (split_on "." s) as [|word words]; [done|].
    simpl in *. by rewrite IH.
  - pose proof (split_on_nonempty "." s) as Hsplit.
    destruct (split_on "." s) as [|word words]; [done|].
    by rewrite concat_cons_char, IH.
Qed.

Lemma split_on_append sep key s :
  lacks sep key = true ->
  split_on sep (key +:+ String sep s) = key :: split_on sep s.
Proof.
  induction key as [|c key IH]; simpl.
  - intros _. by destruct (decide (sep = sep)).
  - intros [Hc Hkey]%andb_prop. apply negb_true_iff, bool_decide_eq_false in Hc.
    destruct (decide (c = sep)); [done|]. by rewrite IH.
Qed.

(** X13. The key path read from the command line is never empty and none of
    its keys holds a dot; joining the keys with dots gives back the argument,
    so no two arguments give the same key path. *)
Theorem key_path_type_join (s : string) :
  key_path_type s ≠ []
  /\ (forall key, key ∈ key_path_type s -> lacks "." key = true)
  /\ str_join "." (key_path_type s) = s.
Proof.
  split; [apply split_on_nonempty|]. split.
  - intros key. apply split_on_lacks.
  - apply split_on_join_dot.
Qed.

Lemma key_path_type_join_witness :
  lacks "." "workflow" = true.
Proof.
  apply (proj1 (proj2 (key_path_type_join "workflow.FIXlam")) "workflow").
  by vm_compute; left.
Defined.

(** X14. Every non-empty list of keys without dots is the key path of one
    argument, the keys joined by dots: a key path can be given on the command
    line exactly when it is not empty and no key holds a dot. *)
Theorem key_path_type_of_join (keys : list string) :
  keys ≠ [] ->
  (forall key, key ∈ keys -> lacks "." key = true) ->
  key_path_type (str_join "." keys) = keys.
Proof.
  unfold key_path_type, str_join.
  induction keys as [|key rest IH]; [done|]. intros _ Hkeys.
  assert (Hkey : lacks "." key = true) by (apply Hkeys; left).
  destruct rest as [|key' rest'].
  - simpl. by apply split_on_whole.
  - change (String.concat "." (key :: key' :: rest'))
      with (key +:+ String "." (String.concat "." (key' :: rest'))).
    rewrite split_on_append by done.
    rewrite IH; [done | done |]. intros k Hk. apply Hkeys. by right.
Qed.

Lemma key_path_type_of_join_witness :
  key_path_type (str_join "." ["task_run_fcst"; "fv3"]) = ["task_run_fcst"; "fv3"].
Proof.
  apply (key_path_type_of_join ["task_run_fcst"; "fv3"]); [done|].
  intros key [-> | ->%list_elem_of_singleton]%elem_of_cons; by vm_compute.
Defined.

(** * Further properties of [run_fcst] *)

Section Keeps.

Context {X : Type} (part : world -> X).
Hypothesis part_logged : forall lv msg w, part (logged lv msg w) = part w.

Lemma keeps_bind {A B} (m : M A) (k : A -> M B) :
  keeps part m -> (forall a, keeps part (k a)) -> keeps part (m ≫= k).
Proof.
  intros Hm Hk w. unfold mbind, M_bind. specialize (Hm w).
  destruct (m w) as [[a|e] w1]; simpl in *; [|done].
  by rewrite Hk.
Qed.

Lemma keeps_bind_returned {A B} (m : M A) (k : A -> M B) :
  keeps part m ->
  (forall a w w', m w = (Returned a, w') -> keeps part (k a)) ->
  keeps part (m ≫= k).
Proof.
  intros Hm Hk w. unfold mbind, M_bind. specialize (Hm w).
  destruct (m w) as [[a|e] w1] eqn:Hrun; simpl in *; [|done].
  by rewrite (Hk a w w1 Hrun).
Qed.

Lemma keeps_ret {A} (a : A) : keeps part (mret a : M A).
Proof. done. Qed.

Lemma keeps_raise {A} e : keeps part (raise e : M A).
Proof. done. Qed.

Lemma keeps_emit lv msg : keeps part (emit lv msg).
Proof. intros w. apply part_logged. Qed.

Lemma keeps_getitem v key : keeps part (getitem v key).
Proof.
  intros w. destruct v as [[]| |d]; try done. simpl. by destruct (d !! key).
Qed.

Lemma keeps_Path_new v : keeps part (Path_new v).
Proof. intros w. by destruct v as [[]| |]. Qed.

Lemma keeps_Path_is_file p : keeps part (Path_is_file p).
Proof. done. Qed.

Lemma keeps_load_global {A} (bindings : list (string * A)) name :
  keeps part (load_global bindings name).
Proof. intros w. unfold load_global. by destruct (_ !! name). Qed.

Lemma keeps_fix_lam_path_of expt_config : keeps part (fix_lam_path_of expt_config).
Proof.
  apply keeps_bind; [apply keeps_getitem|]. intros workflow.
  apply keeps_bind; [apply keeps_getitem|]. intros fixlam. apply keeps_Path_new.
Qed.

Lemma keeps_when_exit b msg :
  keeps part (when b (logging_error msg;; sys_exit 1)).
Proof.
  destruct b; [|done]. apply keeps_bind; [apply keeps_emit|]. intros _.
  apply keeps_raise.
Qed.

End Keeps.

(** The lookup of the destination changes nothing. *)
Lemma fix_lam_path_of_world expt_config w : (fix_lam_path_of expt_config w).2 = w.
Proof. by apply (keeps_fix_lam_path_of (λ w, w)). Qed.

(** The call at line 117 never happens: the name [_link_files] is not bound. *)
Lemma unbound_link_files {A} (k : (Path -> list string -> M unit) -> M A) w :
  (load_global (ns_linkers module_namespace) "_link_files" ≫= k) w
  = (Raised (NameError "_link_files"), w).
Proof. by apply bind_raised. Qed.

Lemma bind_never_returns {A B} (m : M A) (k : A -> M B) :
  (forall a w, exists e w', k a w = (Raised e, w')) ->
  forall w, exists e w', (m ≫= k) w = (Raised e, w').
Proof.
  intros Hk w. unfold mbind, M_bind.
  destruct (m w) as [[a|e] w1]; [apply Hk | eauto].
Qed.

Section RunFcstMore.

Variable datetime : Type.
Variable get_yaml_config : Path -> M tree.
Variable FV3 : Path -> datetime -> list string -> M driver.

(** X15. Whenever everything before the publication succeeds (the
    configuration is loaded, the driver is built and run, its marker
    "runscript.fv3.done" is a file of the run directory, and the destination
    is found in the configuration), [run_fcst] raises [NameError] for
    [_link_files] in the world the driver left: it publishes nothing and
    writes no marker of its own. *)
Theorem run_fcst_stops_before_publishing
    (config_file : Path) (cycle : datetime) (key_path : list string)
    (member : string) (expt_config : tree) (fv3_driver : driver)
    (rundir : string) (dest : Path) (w w1 w2 w3 : world) :
  get_yaml_config config_file w = (Returned expt_config, w1) ->
  FV3 config_file cycle key_path (os_environ_set "MEMBER" member w1).2
    = (Returned fv3_driver, w2) ->
  driver_config fv3_driver !! "rundir" = Some (VScalar (SStr rundir)) ->
  driver_run fv3_driver
    (logged INFO ("Will run FV3 in " +:+ Path_str (Path_of_string rundir)) w2)
    = (Returned tt, w3) ->
  (Path_is_file (Path_div (Path_of_string rundir) "runscript.fv3.done") w3).1
    = Returned true ->
  (fix_lam_path_of expt_config w3).1 = Returned dest ->
  run_fcst datetime get_yaml_config FV3 config_file cycle key_path member w
  = (Raised (NameError "_link_files"), w3).
Proof.
  intros Hload Hnew Hrundir Hrun Hmarker Hdest.
  unfold run_fcst, run_fcst_in.
  rewrite (bind_returned _ _ _ _ _ Hload).
  rewrite (bind_returned (os_environ_set "MEMBER" member) _ w1 tt _ eq_refl).
  rewrite (bind_returned _ _ _ _ _ Hnew).
  rewrite (bind_returned (getitem _ "rundir") _ w2 (VScalar (SStr rundir)) w2)
    by (simpl; by rewrite Hrundir).
  rewrite (bind_returned (Path_new (VScalar (SStr rundir))) _ w2
             (Path_of_string rundir) w2 eq_refl).
  rewrite (bind_returned (logging_info _) _ w2 tt _ eq_refl).
  rewrite (bind_returned _ _ _ _ _ Hrun).
  rewrite (bind_returned (Path_is_file _) _ w3 true w3)
    by (unfold Path_is_file in *; simpl in *; congruence).
  rewrite (bind_returned (when (negb true) _) _ w3 tt w3 eq_refl).
  rewrite (bind_returned (fix_lam_path_of expt_config) _ w3 dest w3).
  - apply unbound_link_files.
  - pose proof (fix_lam_path_of_world expt_config w3) as Hworld.
    destruct (fix_lam_path_of expt_config w3) as [o w3']. simpl in *. congruence.
Qed.

(** X16. [run_fcst] never returns normally: whatever the loader and the
    driver do, and for every argument and every world, the call ends in an
    exception. *)
Theorem run_fcst_never_returns
    (config_file : Path) (cycle : datetime) (key_path : list string)
    (member : string) (w : world) :
  exists e w',
    run_fcst datetime get_yaml_config FV3 config_file cycle key_path member w
    = (Raised e, w').
Proof.
  unfold run_fcst, run_fcst_in. revert w.
  do 10 (apply bind_never_returns; intros ?).
  intros w'. rewrite unbound_link_files. eauto.
Qed.

(** X17. When the configuration of the driver has no "rundir", [run_fcst]
    raises [KeyError] for it before the driver is run, whatever the names of
    the module are bound to: the world is the one the construction of the
    driver left. *)
Theorem run_fcst_no_rundir (globals : namespace)
    (config_file : Path) (cycle : datetime) (key_path : list string)
    (member : string) (expt_config : tree) (fv3_driver : driver)
    (w w1 w2 : world) :
  get_yaml_config config_file w = (Returned expt_config, w1) ->
  FV3 config_file cycle key_path (os_environ_set "MEMBER" member w1).2
    = (Returned fv3_driver, w2) ->
  driver_config fv3_driver !! "rundir" = None ->
  run_fcst_in datetime get_yaml_config FV3 globals
    config_file cycle key_path member w
  = (Raised (KeyError "rundir"), w2).
Proof.
  intros Hload Hnew Hrundir. unfold run_fcst_in.
  rewrite (bind_returned _ _ _ _ _ Hload).
  rewrite (bind_returned (os_environ_set "MEMBER" member) _ w1 tt _ eq_refl).
  rewrite (bind_returned _ _ _ _ _ Hnew).
  apply bind_raised. simpl. by rewrite Hrundir.
Qed.

(** X18. A configuration in which the destination cannot be found (no
    "workflow", no "FIXlam" in it, or a value there that is not a string) is
    noticed only after the driver has run and completed: [run_fcst] then
    raises the exception of the lookup, in the world the driver left, without
    logging anything about it, whatever the names of the module are bound
    to. *)
Theorem run_fcst_destination_checked_late (globals : namespace)
    (config_file : Path) (cycle : datetime) (key_path : list string)
    (member : string) (expt_config : tree) (fv3_driver : driver)
    (rundir : string) (e : exception) (w w1 w2 w3 : world) :
  get_yaml_config config_file w = (Returned expt_config, w1) ->
  FV3 config_file cycle key_path (os_environ_set "MEMBER" member w1).2
    = (Returned fv3_driver, w2) ->
  driver_config fv3_driver !! "rundir" = Some (VScalar (SStr rundir)) ->
  driver_run fv3_driver
    (logged INFO ("Will run FV3 in " +:+ Path_str (Path_of_string rundir)) w2)
    = (Returned tt, w3) ->
  (Path_is_file (Path_div (Path_of_string rundir) "runscript.fv3.done") w3).1
    = Returned true ->
  (fix_lam_path_of expt_config w3).1 = Raised e ->
  run_fcst_in datetime get_yaml_config FV3 globals
    config_file cycle key_path member w
  = (Raised e, w3).
Proof.
  intros Hload Hnew Hrundir Hrun Hmarker Hdest. unfold run_fcst_in.
  rewrite (bind_returned _ _ _ _ _ Hload).
  rewrite (bind_returned (os_environ_set "MEMBER" member) _ w1 tt _ eq_refl).
  rewrite (bind_returned _ _ _ _ _ Hnew).
  rewrite (bind_returned (getitem _ "rundir") _ w2 (VScalar (SStr rundir)) w2)
    by (simpl; by rewrite Hrundir).
  rewrite (bind_returned (Path_new (VScalar (SStr rundir))) _ w2
             (Path_of_string rundir) w2 eq_refl).
  rewrite (bind_returned (logging_info _) _ w2 tt _ eq_refl).
  rewrite (bind_returned _ _ _ _ _ Hrun).
  rewrite (bind_returned (Path_is_file _) _ w3 true w3)
    by (unfold Path_is_file in *; simpl in *; congruence).
  rewrite (bind_returned (when (negb true) _) _ w3 tt w3 eq_refl).
  apply bind_raised.
  pose proof (fix_lam_path_of_world expt_config w3) as Hworld.
  destruct (fix_lam_path_of expt_config w3) as [o w3']. simpl in *. congruence.
Qed.

(** What [run_fcst] does after setting [MEMBER] leaves alone every part of
    the world that the driver and logging leave alone. *)
Lemma run_fcst_tail_keeps {X} (part : world -> X)
    (config_file : Path) (cycle : datetime) (key_path : list string)
    (expt_config : tree) :
  (forall lv msg w, part (logged lv msg w) = part w) ->
  keeps part (FV3 config_file cycle key_path) ->
  (forall d w w', FV3 config_file cycle key_path w = (Returned d, w') ->
     keeps part (driver_run d)) ->
  keeps part
    (fv3_driver ← FV3 config_file cycle key_path;
     rundir_value ← getitem (VDict (driver_config fv3_driver)) "rundir";
     rundir ← Path_new rundir_value;
     logging_info ("Will run FV3 in " +:+ Path_str rundir);;
     driver_run fv3_driver;;
     done_file ← Path_is_file (Path_div rundir "runscript.fv3.done");
     when (negb done_file)
       (logging_error "Error occurred running FV3. Please see component error logs.";;
        sys_exit 1);;
     fix_lam_path ← fix_lam_path_of expt_config;
     _link_files ← load_global (ns_linkers module_namespace) "_link_files";
     glob ← load_global (ns_glob_modules module_namespace) "glob";
     files ← glob (Path_str (Path_div rundir "*.nc"));
     _link_files fix_lam_path files;;
     task_rundir ← load_global (ns_paths module_namespace) "task_rundir";
     Path_touch (Path_div task_rundir "run_fcst_task_complete.txt")).
Proof.
  intros Hlogged HFV3 Hrun.
  apply keeps_bind_returned; [done|]. intros fv3_driver w0 w0' Hbuilt.
  apply keeps_bind; [by apply keeps_getitem|]. intros rundir_value.
  apply keeps_bind; [by apply keeps_Path_new|]. intros rundir.
  apply keeps_bind; [by apply keeps_emit|]. intros _.
  apply keeps_bind; [by apply (Hrun fv3_driver w0 w0')|]. intros _.
  apply keeps_bind; [by apply keeps_Path_is_file|]. intros done_file.
  apply keeps_bind; [by apply keeps_when_exit|]. intros _.
  apply keeps_bind; [by apply keeps_fix_lam_path_of|]. intros fix_lam_path.
  intros w. by rewrite unbound_link_files.
Qed.

(** X19. [run_fcst] sets [MEMBER] in the environment before it builds the
    driver and never restores it: when the configuration has been loaded and
    neither the construction nor the run of the driver changes [MEMBER], the
    variable holds the [member] argument when [run_fcst] ends, however it
    ends. *)
Theorem run_fcst_leaves_MEMBER_set
    (config_file : Path) (cycle : datetime) (key_path : list string)
    (member : string) (expt_config : tree) (w w1 : world) :
  get_yaml_config config_file w = (Returned expt_config, w1) ->
  keeps member_of (FV3 config_file cycle key_path) ->
  (forall d w w', FV3 config_file cycle key_path w = (Returned d, w') ->
     keeps member_of (driver_run d)) ->
  member_of (run_fcst datetime get_yaml_config FV3 config_file cycle key_path member w).2
  = Some member.
Proof.
  intros Hload HFV3 Hrun. unfold run_fcst, run_fcst_in.
  rewrite (bind_returned _ _ _ _ _ Hload).
  rewrite (bind_returned (os_environ_set "MEMBER" member) _ w1 tt _ eq_refl).
  rewrite (run_fcst_tail_keeps member_of config_file cycle key_path expt_config)
    by done.
  unfold member_of. simpl. apply lookup_insert_eq.
Qed.

(** X20. [run_fcst] itself never writes to the file system: an entry that
    the loader and the driver leave as it is (a link in the destination
    directory, the marker "run_fcst_task_complete.txt") is the same when
    [run_fcst] ends as when it started, however it ends; no link is created
    and no marker is written in any run. *)
Theorem run_fcst_writes_no_file (p : Path)
    (config_file : Path) (cycle : datetime) (key_path : list string)
    (member : string) (w : world) :
  keeps (entry_at p) (get_yaml_config config_file) ->
  keeps (entry_at p) (FV3 config_file cycle key_path) ->
  (forall d w w', FV3 config_file cycle key_path w = (Returned d, w') ->
     keeps (entry_at p) (driver_run d)) ->
  fs (run_fcst datetime get_yaml_config FV3 config_file cycle key_path member w).2 !! p
  = fs w !! p.
Proof.
  intros Hload HFV3 Hrun. unfold run_fcst, run_fcst_in.
  revert w. apply (keeps_bind (entry_at p)); [done|]. intros expt_config.
  apply (keeps_bind (entry_at p)); [done|]. intros _.
  by apply (run_fcst_tail_keeps (entry_at p)).
Qed.

(** X21. The main block never calls [run_fcst]: it always ends in an
    exception, and when logging is set up and the arguments are parsed, the
    exception is [NameError] for [run_fv3] and nothing is done after the
    parsing. *)
Theorem main_never_runs (use_uwtools_logger : M unit)
    (parse_args : list string -> M (args datetime)) (argv : list string) (w : world) :
  (exists e w',
     main datetime get_yaml_config FV3 use_uwtools_logger parse_args argv w
     = (Raised e, w'))
  /\ (forall (a : args datetime) (w1 w2 : world),
        use_uwtools_logger w = (Returned tt, w1) ->
        parse_args argv w1 = (Returned a, w2) ->
        main datetime get_yaml_config FV3 use_uwtools_logger parse_args argv w
        = (Raised (NameError "run_fv3"), w2)).
Proof.
  split.
  - unfold main. revert w. do 2 (apply bind_never_returns; intros ?).
    intros w'. erewrite bind_raised; [eauto | reflexivity].
  - intros a w1 w2. apply main_NameError.
Qed.

End RunFcstMore.

Lemma run_fcst_stops_before_publishing_witness :
  run_fcst unit (λ _, mret config_A) (λ _ _ _, mret driver_B)
    ["/"; "expt"; "config.yaml"] tt ["task_run_fcst"] "000" world_B
  = (Raised (NameError "_link_files"),
     logged INFO "Will run FV3 in /run" (os_environ_set "MEMBER" "000" world_B).2).
Proof.
  pose proof (run_fcst_stops_before_publishing unit (λ _, mret config_A)
                (λ _ _ _, mret driver_B) ["/"; "expt"; "config.yaml"] tt
                ["task_run_fcst"] "000" config_A driver_B "/run" ["/"; "out"]
                world_B world_B (os_environ_set "MEMBER" "000" world_B).2
                (logged INFO "Will run FV3 in /run"
                   (os_environ_set "MEMBER" "000" world_B).2)) as Hstops.
  apply Hstops; reflexivity.
Defined.

Lemma run_fcst_no_rundir_witness :
  run_fcst_in unit (λ _, mret config_A) (λ _ _ _, mret (Driver ∅ (mret tt)))
    module_namespace ["/"; "expt"; "config.yaml"] tt ["task_run_fcst"] "000" world_B
  = (Raised (KeyError "rundir"), (os_environ_set "MEMBER" "000" world_B).2).
Proof.
  pose proof (run_fcst_no_rundir unit (λ _, mret config_A)
                (λ _ _ _, mret (Driver ∅ (mret tt))) module_namespace
                ["/"; "expt"; "config.yaml"] tt ["task_run_fcst"] "000"
                config_A (Driver ∅ (mret tt)) world_B world_B
                (os_environ_set "MEMBER" "000" world_B).2) as Hstops.
  apply Hstops; reflexivity.
Defined.

Lemma run_fcst_destination_checked_late_witness :
  run_fcst_in unit (λ _, mret ∅) (λ _ _ _, mret driver_B)
    module_namespace ["/"; "expt"; "config.yaml"] tt ["task_run_fcst"] "000" world_B
  = (Raised (KeyError "workflow"),
     logged INFO "Will run FV3 in /run" (os_environ_set "MEMBER" "000" world_B).2).
Proof.
  pose proof (run_fcst_destination_checked_late unit (λ _, mret ∅)
                (λ _ _ _, mret driver_B) module_namespace
                ["/"; "expt"; "config.yaml"] tt ["task_run_fcst"] "000"
                ∅ driver_B "/run" (KeyError "workflow")
                world_B world_B (os_environ_set "MEMBER" "000" world_B).2
                (logged INFO "Will run FV3 in /run"
                   (os_environ_set "MEMBER" "000" world_B).2)) as Hstops.
  apply Hstops; reflexivity.
Defined.

Lemma run_fcst_leaves_MEMBER_set_witness :
  member_of (run_fcst unit (λ _, mret config_A) (λ _ _ _, mret driver_B)
               ["/"; "expt"; "config.yaml"] tt ["task_run_fcst"] "007" world_C).2
  = Some "007".
Proof.
  apply (run_fcst_leaves_MEMBER_set unit (λ _, mret config_A)
           (λ _ _ _, mret driver_B) ["/"; "expt"; "config.yaml"] tt
           ["task_run_fcst"] "007" config_A world_C world_C).
  - reflexivity.
  - intros w. reflexivity.
  - intros d w w' Hbuilt. injection Hbuilt as <- _. intros w0. reflexivity.
Defined.

Lemma run_fcst_writes_no_file_witness :
  fs (run_fcst unit (λ _, mret config_A) (λ _ _ _, mret driver_B)
        ["/"; "expt"; "config.yaml"] tt ["task_run_fcst"] "000" world_B).2
    !! ["/"; "run"; "run_fcst_task_complete.txt"]
  = fs world_B !! ["/"; "run"; "run_fcst_task_complete.txt"].
Proof.
  apply (run_fcst_writes_no_file unit (λ _, mret config_A)
           (λ _ _ _, mret driver_B) ["/"; "run"; "run_fcst_task_complete.txt"]
           ["/"; "expt"; "config.yaml"] tt ["task_run_fcst"] "000" world_B).
  - intros w. reflexivity.
  - intros w. reflexivity.
  - intros d w w' Hbuilt. injection Hbuilt as <- _. intros w0. reflexivity.
Defined.

Lemma main_never_runs_witness :
  main unit (λ _, mret config_A) (λ _ _ _, mret driver_B) (mret tt)
    (λ _, mret (Args unit ["/"; "expt"; "config.yaml"] tt ["task_run_fcst"] "000"))
    ["-c"; "/expt/config.yaml"] world_B
  = (Raised (NameError "run_fv3"), world_B).
Proof.
  pose proof (proj2 (main_never_runs unit (λ _, mret config_A)
                       (λ _ _ _, mret driver_B) (mret tt)
                       (λ _, mret (Args unit ["/"; "expt"; "config.yaml"] tt
                                     ["task_run_fcst"] "000"))
                       ["-c"; "/expt/config.yaml"] world_B)
                (Args unit ["/"; "expt"; "config.yaml"] tt ["task_run_fcst"] "000")
                world_B world_B) as Hmain.
  apply Hmain; reflexivity.
Defined.
